(** * djorm_pgarray.fields: array fields for the Django ORM

    A shallow embedding of [djorm_pgarray/fields.py] and proofs about its
    parsing, coercion and form-field code.

    - Python values are the datatype [pyval]. Text is one type, [string]
      (as in Python 3, where [six.string_types] is [(str,)] and
      [force_text] returns text as it is); a character is a code point
      below 256.
    - A call that can raise returns a [result]; [try]/[except] is a match
      on it.
    - The builtins the module calls ([int], [float], [str], [set],
      [sort], truth, iteration) are modelled as far as the values above
      need; [json.loads], the text of floats and containers, and the
      iteration order of sets are parameters ([PyLib]).
    - [parse_array] comes from [djorm_pgarray/utils.py], which is not
      among the sources; it is modelled from the spec's description of
      Parse. *)

From Stdlib Require Import ZArith List String Ascii Bool Lia.
From Stdlib Require Import Permutation Sorted.
From Stdlib Require Import DecimalString DecimalPos DecimalZ.
From Stdlib Require Import SpecFloat.
Import ListNotations.

Local Open Scope string_scope.
Local Open Scope list_scope.
Local Open Scope Z_scope.

(** ** Python values *)

Unset Elimination Schemes.
(** The values the module handles: [None], [bool], [int], [float] (an IEEE
    binary64, kept canonical), [str], [list], [tuple] and [dict]. *)
Inductive pyval : Type :=
| PNone
| PBool (b : bool)
| PInt (n : Z)
| PFloat (f : spec_float)
| PStr (s : string)
| PList (xs : list pyval)
| PTuple (xs : list pyval)
| PDict (kvs : list (pyval * pyval)).
Set Elimination Schemes.

(** Induction with the hypothesis available for every element of a list
    or tuple (a [dict] is never descended into by this module). *)
Definition pyval_ind (P : pyval -> Prop)
    (HNone : P PNone) (HBool : forall b, P (PBool b))
    (HInt : forall n, P (PInt n)) (HFloat : forall f, P (PFloat f))
    (HStr : forall s, P (PStr s))
    (HList : forall xs, Forall P xs -> P (PList xs))
    (HTuple : forall xs, Forall P xs -> P (PTuple xs))
    (HDict : forall kvs, P (PDict kvs)) : forall v, P v :=
  fix F (v : pyval) : P v :=
    let all := fix G (xs : list pyval) : Forall P xs :=
      match xs with
      | [] => Forall_nil P
      | x :: r => Forall_cons x (F x) (G r)
      end in
    match v with
    | PNone => HNone
    | PBool b => HBool b
    | PInt n => HInt n
    | PFloat f => HFloat f
    | PStr s => HStr s
    | PList xs => HList xs (all xs)
    | PTuple xs => HTuple xs (all xs)
    | PDict kvs => HDict kvs
    end.

(** ** Exceptions and results *)

Inductive exn : Type :=
| ValueError
| TypeError
| OverflowError
| RecursionError
| ValidationError (message : string).

Inductive result (A : Type) : Type :=
| Ok (a : A)
| Raise (e : exn).
Arguments Ok {A} a.
Arguments Raise {A} e.

Definition bind {A B} (r : result A) (k : A -> result B) : result B :=
  match r with
  | Ok a => k a
  | Raise e => Raise e
  end.

Notation "x <- c ;; k" := (bind c (fun x => k))
  (at level 61, c at next level, right associativity).

(** Left-to-right evaluation of a comprehension [[f(x) for x in xs]]: the
    first exception ends it. *)
Definition mapM {A B} (f : A -> result B) : list A -> result (list B) :=
  fix go (xs : list A) : result (list B) :=
    match xs with
    | [] => Ok []
    | x :: r => y <- f x ;; ys <- go r ;; Ok (y :: ys)
    end.

(** ** Builtins *)

(** [isinstance(v, six.string_types)] *)
Definition is_string (v : pyval) : bool :=
  match v with PStr _ => true | _ => false end.

(** [isinstance(v, (list, tuple))] *)
Definition is_list_or_tuple (v : pyval) : bool :=
  match v with PList _ | PTuple _ => true | _ => false end.

(** The elements a list or tuple iterates over, in order. *)
Definition items (v : pyval) : list pyval :=
  match v with PList xs | PTuple xs => xs | _ => [] end.

Definition float_is_zero (f : spec_float) : bool :=
  match f with S754_zero _ => true | _ => false end.

(** Truth value: [None], [False], zero, and empty text and containers are
    false; everything else is true. *)
Definition truthy (v : pyval) : bool :=
  match v with
  | PNone => false
  | PBool b => b
  | PInt n => negb (n =? 0)
  | PFloat f => negb (float_is_zero f)
  | PStr s => negb (s =? "")%string
  | PList xs | PTuple xs => match xs with [] => false | _ => true end
  | PDict kvs => match kvs with [] => false | _ => true end
  end.

(** Whitespace for [str.strip] (code points below 256). *)
Definition is_space (c : ascii) : bool :=
  let n := N_of_ascii c in
  ((9 <=? n) && (n <=? 13) || (28 <=? n) && (n <=? 32)
   || (n =? 133) || (n =? 160))%N.

(** Whitespace for [int] and [float] reading text: the separators 28 to
    31 are not skipped there. *)
Definition is_number_space (c : ascii) : bool :=
  let n := N_of_ascii c in
  ((9 <=? n) && (n <=? 13) || (n =? 32) || (n =? 133) || (n =? 160))%N.

Fixpoint lstrip_by (sp : ascii -> bool) (s : list ascii) : list ascii :=
  match s with
  | c :: r => if sp c then lstrip_by sp r else s
  | [] => []
  end.

Fixpoint rstrip_by (sp : ascii -> bool) (s : list ascii) : list ascii :=
  match s with
  | c :: r =>
      match rstrip_by sp r with
      | [] => if sp c then [] else [c]
      | r' => c :: r'
      end
  | [] => []
  end.

Abbreviation lstrip := (lstrip_by is_space).
Abbreviation rstrip := (rstrip_by is_space).

(** [s.strip()] *)
Definition strip (s : list ascii) : list ascii := rstrip (lstrip s).

(** The text a number is read from, without the whitespace around it. *)
Definition number_strip (s : list ascii) : list ascii :=
  rstrip_by is_number_space (lstrip_by is_number_space s).

Definition chars := list_ascii_of_string.
Definition text := string_of_list_ascii.

(** [str(n)] for an [int]. *)
Definition str_of_int (n : Z) : string := NilZero.string_of_int (Z.to_int n).

(** [int(s)] for text: surrounding whitespace, an optional sign, then one
    or more decimal digits (no digit separators). *)
Definition int_of_text (s : string) : result Z :=
  let t := text (number_strip (chars s)) in
  let '(neg, body) :=
    match t with
    | String "-" r => (true, r)
    | String "+" r => (false, r)
    | _ => (false, t)
    end in
  match NilEmpty.uint_of_string body with
  | Some Decimal.Nil => Raise ValueError
  | Some d => Ok (if neg then - Z.of_uint d else Z.of_uint d)
  | None => Raise ValueError
  end.

(** *** Floating point *)

(** A [float] is an IEEE binary64: 53 bits of precision, exponents below
    1024, results rounded to nearest, ties to even. *)
Definition b64_of_Z (n : Z) : spec_float := binary_normalize 53 1024 n 0 false.
Definition b64_div : spec_float -> spec_float -> spec_float := SFdiv 53 1024.

(** The float nearest to [m * 10^e10], with the sign [neg]. *)
Definition float_of_decimal (neg : bool) (m e10 : Z) : spec_float :=
  match m with
  | Z0 => S754_zero neg
  | Zpos p =>
      if 0 <=? e10
      then b64_of_Z ((if neg then -1 else 1) * (m * 10 ^ e10))
      else b64_div (S754_finite neg p 0)
                   (S754_finite false (Z.to_pos (10 ^ (- e10))) 0)
  | Zneg _ => S754_nan
  end.

Definition is_digit (c : ascii) : bool :=
  let n := N_of_ascii c in ((48 <=? n) && (n <=? 57))%N.

Definition digit_val (c : ascii) : Z := Z.of_N (N_of_ascii c) - 48.

Fixpoint span_digits (s : list ascii) : list ascii * list ascii :=
  match s with
  | c :: r =>
      if is_digit c
      then let '(d, t) := span_digits r in (c :: d, t)
      else ([], s)
  | [] => ([], [])
  end.

Definition digits_val (ds : list ascii) : Z :=
  fold_left (fun a c => 10 * a + digit_val c) ds 0.

Definition split_sign (s : list ascii) : bool * list ascii :=
  match s with
  | "-"%char :: r => (true, r)
  | "+"%char :: r => (false, r)
  | _ => (false, s)
  end.

Definition to_lower (c : ascii) : ascii :=
  let n := N_of_ascii c in
  if ((65 <=? n) && (n <=? 90))%N then ascii_of_N (n + 32) else c.

(** The exponent part of a float literal: nothing, or [e]/[E], an
    optional sign and one or more digits. *)
Definition exponent_of (s : list ascii) : option Z :=
  match s with
  | [] => Some 0
  | c :: r =>
      if (Ascii.eqb c "e" || Ascii.eqb c "E")%char
      then
        let '(eneg, r') := split_sign r in
        let '(ed, rest) := span_digits r' in
        match ed, rest with
        | _ :: _, [] => Some (if eneg then - digits_val ed else digits_val ed)
        | _, _ => None
        end
      else None
  end.

(** [float(s)] for text: surrounding whitespace, an optional sign, then
    [inf], [infinity] or [nan] in any case, or a decimal literal with an
    optional fraction and exponent. *)
Definition float_of_text (s : string) : result spec_float :=
  let '(neg, body) := split_sign (number_strip (chars s)) in
  let low := text (map to_lower body) in
  if ((low =? "inf") || (low =? "infinity"))%string then Ok (S754_infinity neg)
  else if (low =? "nan")%string then Ok S754_nan
  else
    let '(ip, r1) := span_digits body in
    let '(fp, r2) :=
      match r1 with
      | "."%char :: r => span_digits r
      | _ => ([], r1)
      end in
    match ip ++ fp, exponent_of r2 with
    | (_ :: _) as ds, Some e =>
        Ok (float_of_decimal neg (digits_val ds) (e - Z.of_nat (List.length fp)))
    | _, _ => Raise ValueError
    end.

(** [int(f)] for a float: truncation toward zero. *)
Definition int_of_float (f : spec_float) : result Z :=
  match f with
  | S754_zero _ => Ok 0
  | S754_infinity _ => Raise OverflowError
  | S754_nan => Raise ValueError
  | S754_finite s m e =>
      let a := if 0 <=? e then Zpos m * 2 ^ e else Zpos m / 2 ^ (- e) in
      Ok (if s then - a else a)
  end.

(** [float(n)] for an int. *)
Definition float_of_int (n : Z) : result spec_float :=
  match b64_of_Z n with
  | S754_infinity _ => Raise OverflowError
  | f => Ok f
  end.

(** The builtin [int]. *)
Definition py_int (v : pyval) : result pyval :=
  match v with
  | PInt n => Ok (PInt n)
  | PBool b => Ok (PInt (if b then 1 else 0))
  | PFloat f => n <- int_of_float f ;; Ok (PInt n)
  | PStr s => n <- int_of_text s ;; Ok (PInt n)
  | PNone | PList _ | PTuple _ | PDict _ => Raise TypeError
  end.

(** The builtin [float]. *)
Definition py_float (v : pyval) : result pyval :=
  match v with
  | PFloat f => Ok (PFloat f)
  | PInt n => f <- float_of_int n ;; Ok (PFloat f)
  | PBool b => Ok (PFloat (b64_of_Z (if b then 1 else 0)))
  | PStr s => f <- float_of_text s ;; Ok (PFloat f)
  | PNone | PList _ | PTuple _ | PDict _ => Raise TypeError
  end.

(** The float literals [1.5] and [2.5]: 3/2 and 5/2. *)
Definition float_1_5 : spec_float := S754_finite false 6755399441055744 (-52).
Definition float_2_5 : spec_float := S754_finite false 5629499534213120 (-51).

(** *** Equality, order and hashing *)

Inductive num : Type :=
| NInt (n : Z)
| NFloat (f : spec_float).

(** [bool], [int] and [float] compare with each other as numbers. *)
Definition as_num (v : pyval) : option num :=
  match v with
  | PBool b => Some (NInt (if b then 1 else 0))
  | PInt n => Some (NInt n)
  | PFloat f => Some (NFloat f)
  | _ => None
  end.

(** An int against a float, exactly; nothing compares with [nan]. *)
Definition cmp_int_float (n : Z) (f : spec_float) : option comparison :=
  match f with
  | S754_nan => None
  | S754_infinity s => Some (if s then Gt else Lt)
  | S754_zero _ => Some (n ?= 0)
  | S754_finite s m e =>
      let v := if s then Zneg m else Zpos m in
      Some (if 0 <=? e then n ?= v * 2 ^ e else n * 2 ^ (- e) ?= v)
  end.

Definition num_compare (a b : num) : option comparison :=
  match a, b with
  | NInt x, NInt y => Some (x ?= y)
  | NFloat x, NFloat y => SFcompare x y
  | NInt x, NFloat y => cmp_int_float x y
  | NFloat x, NInt y => option_map CompOpp (cmp_int_float y x)
  end.

(** [a == b] on the values a set can hold (a [dict] is not hashable and is
    never compared here). *)
Fixpoint py_eq (a b : pyval) {struct a} : bool :=
  let all2 := fix go (xs ys : list pyval) {struct xs} : bool :=
    match xs, ys with
    | [], [] => true
    | x :: xr, y :: yr => py_eq x y && go xr yr
    | _, _ => false
    end in
  match a, b with
  | PNone, PNone => true
  | PStr s, PStr t => (s =? t)%string
  | PList xs, PList ys => all2 xs ys
  | PTuple xs, PTuple ys => all2 xs ys
  | _, _ =>
      match as_num a, as_num b with
      | Some x, Some y =>
          match num_compare x y with Some Eq => true | _ => false end
      | _, _ => false
      end
  end.

(** [a < b]: numbers with numbers, text with text by code point, tuples
    and lists by their first differing element; anything else raises
    [TypeError]. *)
Fixpoint py_lt (a b : pyval) {struct a} : result bool :=
  let lex := fix go (xs ys : list pyval) {struct xs} : result bool :=
    match xs, ys with
    | [], [] => Ok false
    | [], _ :: _ => Ok true
    | _ :: _, [] => Ok false
    | x :: xr, y :: yr => if py_eq x y then go xr yr else py_lt x y
    end in
  match a, b with
  | PStr s, PStr t => Ok (String.ltb s t)
  | PList xs, PList ys => lex xs ys
  | PTuple xs, PTuple ys => lex xs ys
  | _, _ =>
      match as_num a, as_num b with
      | Some x, Some y =>
          Ok match num_compare x y with Some Lt => true | _ => false end
      | _, _ => Raise TypeError
      end
  end.

(** [hash(v)] succeeds: lists and dicts are unhashable, a tuple is
    hashable when its elements are. *)
Fixpoint hashable (v : pyval) : bool :=
  match v with
  | PList _ | PDict _ => false
  | PTuple xs => forallb hashable xs
  | _ => true
  end.

(** [iter(v)]: what a [for] loop, [set(v)] or [list(v)] walks over. *)
Definition py_iter (v : pyval) : result (list pyval) :=
  match v with
  | PList xs | PTuple xs => Ok xs
  | PStr s => Ok (map (fun c => PStr (String c "")) (chars s))
  | PDict kvs => Ok (map fst kvs)
  | PNone | PBool _ | PInt _ | PFloat _ => Raise TypeError
  end.

(** [set.add]: an element equal to one already present is dropped. *)
Definition set_add (acc : list pyval) (x : pyval) : list pyval :=
  if existsb (py_eq x) acc then acc else acc ++ [x].

(** The distinct elements [set(xs)] holds, in insertion order; hashing an
    unhashable element raises [TypeError]. *)
Definition set_elements (xs : list pyval) : result (list pyval) :=
  if forallb hashable xs then Ok (fold_left set_add xs []) else Raise TypeError.

(** [list.sort()]: ascending by [<]. Which pairs the library's sort
    compares is not modelled: this is sorting by insertion, which agrees
    with it when every two elements are comparable and distinct (one
    ascending arrangement exists) and raises when it meets a pair that
    does not compare. *)
Fixpoint insert_sorted (x : pyval) (ys : list pyval) : result (list pyval) :=
  match ys with
  | [] => Ok [x]
  | y :: r =>
      lt <- py_lt x y ;;
      if lt then Ok (x :: ys) else r' <- insert_sorted x r ;; Ok (y :: r')
  end.

Fixpoint list_sort (xs : list pyval) : result (list pyval) :=
  match xs with
  | [] => Ok []
  | x :: r => s <- list_sort r ;; insert_sorted x s
  end.

(** ** Library functions the module calls

    [json.loads], the text [str(x)] of a float or container, and the order
    in which a set yields its elements are taken as given. *)
Class PyLib : Type := {
  (** [json.loads(s)] for text [s]. *)
  json_loads : string -> result pyval;
  (** [str(f)] for a float. *)
  float_repr : spec_float -> string;
  (** [str(v)] for a list, tuple or dict. *)
  container_repr : pyval -> string;
  (** the order in which a set holding these elements yields them *)
  set_iter : list pyval -> list pyval;
  set_iter_perm : forall xs, Permutation (set_iter xs) xs
}.

(** ** The module *)

(** What [type_cast] can be: one of the builtins [int], [str] and [float]
    that [TYPES] holds, the [lambda x: x] of [__init__], or a callable the
    caller passed in. *)
Inductive callable : Type :=
| builtin_int
| builtin_str
| builtin_float
| lambda_identity
| callable_other (f : pyval -> result pyval).

(** [TYPES] *)
Definition TYPES : list (string * callable) :=
  [ ("int", builtin_int);
    ("smallint", builtin_int);
    ("bigint", builtin_int);
    ("text", builtin_str);
    ("double precision", builtin_float);
    ("varchar", builtin_str) ].

(** [key in d] and [d[key]] for a dict with text keys. *)
Fixpoint dict_get {A} (key : string) (d : list (string * A)) : option A :=
  match d with
  | [] => None
  | (k, v) :: r => if (k =? key)%string then Some v else dict_get key r
  end.

(** [s.split('(')[0]]: the text before the first parenthesis. *)
Fixpoint before_paren (s : string) : string :=
  match s with
  | EmptyString => EmptyString
  | String c r => if Ascii.eqb c "(" then EmptyString else String c (before_paren r)
  end.

(** [type_cast == str] *)
Definition is_builtin_str (c : callable) : bool :=
  match c with builtin_str => true | _ => false end.

Section Fields.
Context {lib : PyLib}.

(** [str(v)]: the text of a value. *)
Definition py_str (v : pyval) : string :=
  match v with
  | PStr s => s
  | PNone => "None"
  | PBool true => "True"
  | PBool false => "False"
  | PInt n => str_of_int n
  | PFloat f => float_repr f
  | PList _ | PTuple _ | PDict _ => container_repr v
  end.

(** [force_text(v)]: text is returned as it is, anything else as
    [str(v)]. *)
Definition force_text (v : pyval) : pyval := PStr (py_str v).

(** [type_cast(v)] *)
Definition call (c : callable) (v : pyval) : result pyval :=
  match c with
  | builtin_int => py_int v
  | builtin_str => Ok (PStr (py_str v))
  | builtin_float => py_float v
  | lambda_identity => Ok v
  | callable_other f => f v
  end.

(** [_cast_to_unicode(data, force=False)] *)
Fixpoint _cast_to_unicode (data : pyval) (force : bool) : pyval :=
  match data with
  | PList xs | PTuple xs => PList (map (fun x => _cast_to_unicode x force) xs)
  | _ => if is_string data || force then force_text data else data
  end.

(** [_cast_to_type(data, type_cast)] *)
Fixpoint _cast_to_type (data : pyval) (type_cast : callable) : result pyval :=
  match data with
  | PList xs | PTuple xs =>
      ys <- mapM (fun x => _cast_to_type x type_cast) xs ;; Ok (PList ys)
  | _ =>
      if is_builtin_str type_cast then Ok (force_text data)
      else call type_cast data
  end.

(** [_unserialize(value)]: only [ValueError] is caught. *)
Definition _unserialize (value : pyval) : result pyval :=
  match value with
  | PStr s =>
      match json_loads s with
      | Ok decoded => Ok (_cast_to_unicode decoded false)
      | Raise ValueError => Ok (_cast_to_unicode value false)
      | Raise e => Raise e
      end
  | _ => Ok (_cast_to_unicode value false)
  end.

(** *** [ArrayField] *)

(** The keyword arguments [__init__] looks at. *)
Record kwargs : Type := {
  kw_dbtype : option string;
  kw_type_cast : option callable;
  kw_dimension : option Z
}.

Record ArrayField : Type := {
  _array_type : string;
  _type_cast : callable;
  _dimension : Z
}.

(** [ArrayField.__init__] *)
Definition ArrayField_init (kw : kwargs) : ArrayField :=
  let array_type := match kw_dbtype kw with Some t => t | None => "int" end in
  let type_key := before_paren array_type in
  let type_cast :=
    match kw_type_cast kw with
    | Some f => f
    | None =>
        match dict_get type_key TYPES with
        | Some f => f
        | None => lambda_identity
        end
    end in
  {| _array_type := array_type;
     _type_cast := type_cast;
     _dimension := match kw_dimension kw with Some d => d | None => 1 end |}.

(** [ArrayField.db_type]: the type name followed by one [[]] per
    dimension. *)
Definition db_type (self : ArrayField) : string :=
  String.append (_array_type self)
    (String.concat "" (repeat "[]" (Z.to_nat (_dimension self)))).

(** [ArrayField.get_prep_value] *)
Definition get_prep_value (self : ArrayField) (value : pyval) : pyval := value.

(** [ArrayField.get_db_prep_value] *)
Definition get_db_prep_value (self : ArrayField) (value : pyval)
    (prepared : bool) : result pyval :=
  let value := if prepared then value else get_prep_value self value in
  if negb (truthy value) || is_string value then Ok value
  else _cast_to_type value (_type_cast self).

(** [ArrayField.to_python] *)
Definition ArrayField_to_python (self : ArrayField) (value : pyval)
    : result pyval :=
  _unserialize value.

(** [ArrayField.value_to_string], from the value of the field. *)
Definition value_to_string (self : ArrayField) (value : pyval) : pyval :=
  _cast_to_unicode (get_prep_value self value) true.

End Fields.

(** ** [djorm_pgarray.utils] *)

Definition is_open (c : ascii) : bool := (Ascii.eqb c "{" || Ascii.eqb c "[")%char.
Definition is_close (c : ascii) : bool := (Ascii.eqb c "}" || Ascii.eqb c "]")%char.
Definition is_comma (c : ascii) : bool := Ascii.eqb c ",".

(** The delimiter that closes [c]. *)
Definition closer_of (c : ascii) : ascii :=
  if Ascii.eqb c "{" then "}"%char else "]"%char.

(** The tokens between the commas that are outside every brace and
    bracket. [open] holds the closers still awaited, innermost first;
    [None] when a closer is not the one awaited or one is still awaited at
    the end. *)
Fixpoint split_top (open : list ascii) (s : list ascii)
    : option (list (list ascii)) :=
  match s with
  | [] => match open with [] => Some [[]] | _ => None end
  | c :: r =>
      if is_comma c && match open with [] => true | _ => false end
      then option_map (cons []) (split_top [] r)
      else
        let rest :=
          if is_open c then split_top (closer_of c :: open) r
          else if is_close c then
            match open with
            | w :: open' => if Ascii.eqb c w then split_top open' r else None
            | [] => None
            end
          else split_top open r in
        match rest with
        | Some (t :: toks) => Some ((c :: t) :: toks)
        | _ => None
        end
  end.

(** A list without its last element, and that element. *)
Fixpoint unsnoc {A} (l : list A) : option (list A * A) :=
  match l with
  | [] => None
  | [x] => Some ([], x)
  | x :: r => option_map (fun p => (x :: fst p, snd p)) (unsnoc r)
  end.

(** Every brace and bracket is closed by its own kind, in order, and none
    is left open; [open] holds the closers still awaited. *)
Fixpoint well_nested (open : list ascii) (s : list ascii) : bool :=
  match s with
  | [] => match open with [] => true | _ => false end
  | c :: r =>
      if is_open c then well_nested (closer_of c :: open) r
      else if is_close c then
        match open with
        | w :: open' => Ascii.eqb c w && well_nested open' r
        | [] => false
        end
      else well_nested open r
  end.

(** The inside of a text that is one array in braces or brackets: an
    opener, a well-nested inside, and the closer of that opener at the
    very end. *)
Definition unwrap (t : list ascii) : option (list ascii) :=
  match t with
  | c :: r =>
      if is_open c then
        match unsnoc r with
        | Some (inner, c') =>
            if Ascii.eqb c' (closer_of c) && well_nested [] inner
            then Some inner
            else None
        | None => None
        end
      else None
  | [] => None
  end.

Section Parse.
Variable parse_inner : list ascii -> option (result (list pyval)).

(** One trimmed token: a nested array when it opens with a brace or
    bracket (it must then be one array in braces or brackets), text
    otherwise. *)
Definition parse_token (t : list ascii) : option (result pyval) :=
  match t with
  | c :: _ =>
      if is_open c then
        match unwrap t with
        | Some inner =>
            match parse_inner inner with
            | Some (Ok xs) => Some (Ok (PList xs))
            | Some (Raise e) => Some (Raise e)
            | None => None
            end
        | None => Some (Raise ValueError)
        end
      else Some (Ok (PStr (text t)))
  | [] => Some (Ok (PStr ""))
  end.

Fixpoint parse_tokens (toks : list (list ascii)) : option (result (list pyval)) :=
  match toks with
  | [] => Some (Ok [])
  | t :: r =>
      match parse_token (strip t) with
      | Some (Ok v) =>
          match parse_tokens r with
          | Some (Ok vs) => Some (Ok (v :: vs))
          | other => other
          end
      | Some (Raise e) => Some (Raise e)
      | None => None
      end
  end.
End Parse.

(** The elements of a comma-separated text, with a bound on the nesting
    still allowed; [None] when the bound is reached. *)
Fixpoint parse_depth (fuel : nat) (s : list ascii) : option (result (list pyval)) :=
  match fuel with
  | O => None
  | S n =>
      match strip s with
      | [] => Some (Ok [])
      | _ =>
          match split_top [] s with
          | None => Some (Raise ValueError)
          | Some toks => parse_tokens (parse_depth n) toks
          end
      end
  end.

(** The comma-separated text to parse: the inside of the input when the
    input, trimmed, is one array in braces or brackets, the input itself
    otherwise. *)
Definition array_body (s : list ascii) : list ascii :=
  match unwrap (strip s) with
  | Some inner => inner
  | None => s
  end.

(** Modelled from the spec: [parse_array] of [djorm_pgarray/utils.py],
    which is not among the sources. "Input: a string, expected to be
    either empty/blank (-> empty sequence) or a comma-separated list of
    tokens optionally wrapped in braces/brackets. Behavior: split on the
    delimiter, trim surrounding whitespace from each token, recursively
    parse any token that itself looks like a nested array, leave scalar
    tokens as text. On malformed input (unbalanced delimiters,
    inconsistent nesting) the operation fails with a ParseError", which
    the caller catches as [ValueError]. A text is never nested deeper
    than it is long, so the bound is not reached (see
    [parse_depth_enough]). *)
Definition parse_array (s : string) : result pyval :=
  match parse_depth (S (String.length s)) (array_body (chars s)) with
  | Some (Ok xs) => Ok (PList xs)
  | Some (Raise e) => Raise e
  | None => Raise ValueError
  end.

Section Forms.
Context {lib : PyLib}.

(** *** [ArrayFormField] and [SetFormField] *)

(** The form field of the items, as far as this module calls it. *)
Record ItemField : Type := {
  item_prepare_value : pyval -> pyval;
  item_clean : pyval -> result pyval
}.

Record ArrayFormField : Type := {
  item_field : option ItemField
}.

(** The text of the one validation message; [_] looks up its
    translation. *)
Definition invalid_list_message : string :=
  "Please provide a comma-separated list of values.".

(** [ArrayFormField.to_python] *)
Definition ArrayFormField_to_python (self : ArrayFormField) (value : pyval)
    : result pyval :=
  match value with
  | PStr s =>
      match parse_array s with
      | Ok v => Ok v
      | Raise ValueError => Raise (ValidationError invalid_list_message)
      | Raise e => Raise e
      end
  | _ => Ok value
  end.

(** [SetFormField.to_python] *)
Definition SetFormField_to_python (self : ArrayFormField) (value : pyval)
    : result pyval :=
  match value with
  | PNone => Ok value
  | _ =>
      parsed <- ArrayFormField_to_python self value ;;
      xs <- py_iter parsed ;;
      distinct <- set_elements xs ;;
      val <- list_sort (set_iter distinct) ;;
      Ok (PList val)
  end.

End Forms.

(** ** A concrete library

    An instance of [PyLib] to run the definitions on: a decoder for the
    JSON texts made of integers, [null], [true], [false] and arrays (it
    rejects every other text), the exact decimal expansion as the text of
    a float, and sets that yield their elements in insertion order. *)
Module Reference.

Definition is_json_space (c : ascii) : bool :=
  let n := N_of_ascii c in ((n =? 32) || (n =? 9) || (n =? 10) || (n =? 13))%N.

Fixpoint skip_space (s : list ascii) : list ascii :=
  match s with
  | c :: r => if is_json_space c then skip_space r else s
  | [] => []
  end.

(** A JSON integer: an optional minus and digits without a leading zero;
    a fraction or exponent after it puts the number outside this
    decoder. *)
Definition json_int (s : list ascii) : option (pyval * list ascii) :=
  let '(neg, body) :=
    match s with "-"%char :: r => (true, r) | _ => (false, s) end in
  let '(ds, rest) := span_digits body in
  let after_ok :=
    match rest with
    | c :: _ => negb (Ascii.eqb c "." || Ascii.eqb c "e" || Ascii.eqb c "E")
    | [] => true
    end in
  match ds with
  | [] => None
  | "0"%char :: _ :: _ => None
  | _ =>
      if after_ok
      then Some (PInt (if neg then - digits_val ds else digits_val ds), rest)
      else None
  end.

Fixpoint json_value (fuel : nat) (s : list ascii) {struct fuel}
    : option (pyval * list ascii) :=
  match fuel with
  | O => None
  | S n =>
      match skip_space s with
      | "["%char :: r =>
          match skip_space r with
          | "]"%char :: r' => Some (PList [], r')
          | _ => option_map (fun p => (PList (fst p), snd p)) (json_items n r)
          end
      | "n"%char :: "u"%char :: "l"%char :: "l"%char :: r => Some (PNone, r)
      | "t"%char :: "r"%char :: "u"%char :: "e"%char :: r => Some (PBool true, r)
      | "f"%char :: "a"%char :: "l"%char :: "s"%char :: "e"%char :: r =>
          Some (PBool false, r)
      | s' => json_int s'
      end
  end
with json_items (fuel : nat) (s : list ascii) {struct fuel}
    : option (list pyval * list ascii) :=
  match fuel with
  | O => None
  | S n =>
      match json_value n s with
      | Some (v, r) =>
          match skip_space r with
          | ","%char :: r' =>
              option_map (fun p => (v :: fst p, snd p)) (json_items n r')
          | "]"%char :: r' => Some ([v], r')
          | _ => None
          end
      | None => None
      end
  end.

Definition decode_json (s : string) : result pyval :=
  match json_value (S (2 * String.length s)) (chars s) with
  | Some (v, rest) =>
      match skip_space rest with
      | [] => Ok v
      | _ => Raise ValueError
      end
  | None => Raise ValueError
  end.

(** Trailing zeros of a fraction, keeping one digit. *)
Fixpoint trim_zeros (ds : list ascii) : list ascii :=
  match ds with
  | [] => []
  | c :: r =>
      match trim_zeros r with
      | [] => if Ascii.eqb c "0" then [] else [c]
      | r' => c :: r'
      end
  end.

(** [n / 10^k], for [0 <= n], written out in full. *)
Definition decimal_text (n : Z) (k : nat) : string :=
  let ds := chars (str_of_int n) in
  let ds := repeat "0"%char (S k - List.length ds) ++ ds in
  let cut := (List.length ds - k)%nat in
  let frac := match trim_zeros (skipn cut ds) with [] => ["0"%char] | f => f end in
  text (firstn cut ds ++ "."%char :: frac).

(** The exact value of a float in decimal; it reads back as the same
    float. *)
Definition exact_repr (f : spec_float) : string :=
  match f with
  | S754_nan => "nan"
  | S754_infinity s => if s then "-inf" else "inf"
  | S754_zero s => if s then "-0.0" else "0.0"
  | S754_finite s m e =>
      String.append (if s then "-" else "")
        (if 0 <=? e then decimal_text (Zpos m * 2 ^ e) 0
         else decimal_text (Zpos m * 5 ^ (- e)) (Z.to_nat (- e)))
  end.

Local Open Scope string_scope.

(** Text in quotes, as it is. *)
Fixpoint repr (v : pyval) : string :=
  let seq := fix go (xs : list pyval) : string :=
    match xs with
    | [] => ""
    | [x] => repr x
    | x :: r => repr x ++ ", " ++ go r
    end in
  let pairs := fix go (kvs : list (pyval * pyval)) : string :=
    match kvs with
    | [] => ""
    | [(k, x)] => repr k ++ ": " ++ repr x
    | (k, x) :: r => repr k ++ ": " ++ repr x ++ ", " ++ go r
    end in
  match v with
  | PNone => "None"
  | PBool b => if b then "True" else "False"
  | PInt n => str_of_int n
  | PFloat f => exact_repr f
  | PStr s => "'" ++ s ++ "'"
  | PList xs => "[" ++ seq xs ++ "]"
  | PTuple [x] => "(" ++ repr x ++ ",)"
  | PTuple xs => "(" ++ seq xs ++ ")"
  | PDict kvs => "{" ++ pairs kvs ++ "}"
  end.

Definition lib : PyLib := {|
  json_loads := decode_json;
  float_repr := exact_repr;
  container_repr := repr;
  set_iter := fun xs => xs;
  set_iter_perm := fun xs => Permutation_refl xs
|}.

End Reference.

(** ** The same library under the recursion limit

    [json.loads] goes one level deeper for every array it opens and
    raises [RecursionError] when the interpreter's limit is reached,
    before it has read the rest of the text. *)

Module Bounded.

(** [sys.getrecursionlimit()] as the interpreter starts. *)
Definition recursion_limit : nat := 1000.

Fixpoint json_value (depth fuel : nat) (s : list ascii) {struct fuel}
    : result (pyval * list ascii) :=
  match fuel with
  | O => Raise ValueError
  | S n =>
      match Reference.skip_space s with
      | "["%char :: r =>
          match depth with
          | O => Raise RecursionError
          | S d =>
              match Reference.skip_space r with
              | "]"%char :: r' => Ok (PList [], r')
              | _ => p <- json_items d n r ;; Ok (PList (fst p), snd p)
              end
          end
      | "n"%char :: "u"%char :: "l"%char :: "l"%char :: r => Ok (PNone, r)
      | "t"%char :: "r"%char :: "u"%char :: "e"%char :: r => Ok (PBool true, r)
      | "f"%char :: "a"%char :: "l"%char :: "s"%char :: "e"%char :: r =>
          Ok (PBool false, r)
      | s' =>
          match Reference.json_int s' with
          | Some p => Ok p
          | None => Raise ValueError
          end
      end
  end
with json_items (depth fuel : nat) (s : list ascii) {struct fuel}
    : result (list pyval * list ascii) :=
  match fuel with
  | O => Raise ValueError
  | S n =>
      p <- json_value depth n s ;;
      match Reference.skip_space (snd p) with
      | ","%char :: r' =>
          q <- json_items depth n r' ;; Ok (fst p :: fst q, snd q)
      | "]"%char :: r' => Ok ([fst p], r')
      | _ => Raise ValueError
      end
  end.

Definition decode_json (s : string) : result pyval :=
  p <- json_value recursion_limit (S (2 * String.length s)) (chars s) ;;
  match Reference.skip_space (snd p) with
  | [] => Ok (fst p)
  | _ => Raise ValueError
  end.

Definition lib : PyLib := {|
  json_loads := decode_json;
  float_repr := Reference.exact_repr;
  container_repr := Reference.repr;
  set_iter := fun xs => xs;
  set_iter_perm := fun xs => Permutation_refl xs
|}.


End Bounded.

(** * Properties *)

(** ** Comprehensions *)

Lemma mapM_Ok_iff {A B} (f : A -> result B) xs ys :
  mapM f xs = Ok ys <-> Forall2 (fun x y => f x = Ok y) xs ys.
Proof.
  revert ys; induction xs as [|x r IH]; intros ys; simpl.
  - split.
    + intros [= <-]; constructor.
    + intros H; inversion H; reflexivity.
  - split.
    + destruct (f x) as [y|e] eqn:Hx; simpl; [|discriminate].
      destruct (mapM f r) as [zs|e] eqn:Hr; simpl; [|discriminate].
      intros [= <-]. constructor; [exact Hx | now apply IH].
    + intros H; inversion H as [|x' y r' zs Hx Hr]; subst.
      rewrite Hx; simpl. apply IH in Hr. rewrite Hr; reflexivity.
Qed.

Lemma mapM_Raise {A B} (f : A -> result B) xs e :
  mapM f xs = Raise e ->
  exists before x after,
    xs = before ++ x :: after /\ f x = Raise e /\
    Forall (fun x' => exists y, f x' = Ok y) before.
Proof.
  induction xs as [|x r IH]; simpl; [discriminate|].
  destruct (f x) as [y|e'] eqn:Hx; simpl.
  - destruct (mapM f r) as [zs|e'] eqn:Hr; simpl; [discriminate|].
    intros [= ->]. destruct (IH eq_refl) as (b & x' & a & -> & Hx' & Hb).
    exists (x :: b), x', a. repeat split; auto.
    constructor; eauto.
  - intros [= ->]. exists [], x, r. repeat split; auto.
Qed.

Lemma Forall2_length_nth {A B} (R : A -> B -> Prop) xs ys :
  Forall2 R xs ys ->
  List.length ys = List.length xs /\
  forall i x, nth_error xs i = Some x ->
              exists y, nth_error ys i = Some y /\ R x y.
Proof.
  induction 1 as [|x y xs ys Hxy H IH]; simpl.
  - split; [reflexivity|]. intros [|i] x; discriminate.
  - destruct IH as [Hlen Hnth]. split; [now rewrite Hlen|].
    intros [|i] x'; simpl.
    + intros [= <-]. eauto.
    + apply Hnth.
Qed.

(** ** Selecting the coercion: [ArrayField.__init__] *)

(** The keyword arguments of a field declared by its base type alone. *)
Definition declared (dbtype : string) : kwargs :=
  {| kw_dbtype := Some dbtype; kw_type_cast := None; kw_dimension := None |}.

(** What the spec's sentence selects for a type name. *)
Definition coercion_of_name (name : string) : callable :=
  if ((name =? "int") || (name =? "smallint") || (name =? "bigint"))%string
  then builtin_int
  else if ((name =? "text") || (name =? "varchar"))%string then builtin_str
  else if (name =? "double precision")%string then builtin_float
  else lambda_identity.

Lemma TYPES_lookup (name : string) :
  match dict_get name TYPES with
  | Some f => f
  | None => lambda_identity
  end = coercion_of_name name.
Proof.
  unfold coercion_of_name, TYPES. cbn [dict_get].
  rewrite !(String.eqb_sym _ name).
  destruct (String.eqb_spec name "int"); [reflexivity|].
  destruct (String.eqb_spec name "smallint"); [reflexivity|].
  destruct (String.eqb_spec name "bigint"); [reflexivity|].
  destruct (String.eqb_spec name "text"); [reflexivity|].
  destruct (String.eqb_spec name "double precision"); [subst; reflexivity|].
  destruct (String.eqb_spec name "varchar"); reflexivity.
Qed.

(** The declared type name, ["int"] when none is given. *)
Definition declared_name (kw : kwargs) : string :=
  match kw_dbtype kw with Some t => t | None => "int" end.

(** Without a [type_cast] argument the type name decides. *)
Lemma type_cast_by_name (kw : kwargs) :
  kw_type_cast kw = None ->
  _type_cast (ArrayField_init kw) =
  coercion_of_name (before_paren (declared_name kw)).
Proof.
  intros H. unfold ArrayField_init, declared_name; simpl. rewrite H.
  apply TYPES_lookup.
Qed.

(** A [type_cast] argument is taken as it is. *)
Lemma type_cast_given (kw : kwargs) (f : callable) :
  kw_type_cast kw = Some f -> _type_cast (ArrayField_init kw) = f.
Proof.
  intros H. unfold ArrayField_init; simpl. now rewrite H.
Qed.

Section Coercion.
Context {lib : PyLib}.

(** What [_cast_to_type] does to one element that is not a list or
    tuple. *)
Definition leaf_cast (type_cast : callable) (v : pyval) : result pyval :=
  if is_builtin_str type_cast then Ok (force_text v) else call type_cast v.

(** [coerced tc v w]: [w] is [v] with every element converted, position
    by position, at every depth. *)
#[warnings="-register-all"]
Inductive coerced (tc : callable) : pyval -> pyval -> Prop :=
| coerced_leaf v w :
    is_list_or_tuple v = false -> leaf_cast tc v = Ok w -> coerced tc v w
| coerced_seq v ys :
    is_list_or_tuple v = true ->
    Forall2 (coerced tc) (items v) ys -> coerced tc v (PList ys).

Lemma _cast_to_type_leaf tc v :
  is_list_or_tuple v = false -> _cast_to_type v tc = leaf_cast tc v.
Proof. destruct v; simpl; intros H; try discriminate; reflexivity. Qed.

Lemma _cast_to_type_seq tc v :
  is_list_or_tuple v = true ->
  _cast_to_type v tc =
  (ys <- mapM (fun x => _cast_to_type x tc) (items v) ;; Ok (PList ys)).
Proof. destruct v; simpl; intros H; try discriminate; reflexivity. Qed.

Lemma Forall2_under {A B} (P Q : A -> B -> Prop) xs ys :
  Forall (fun x => forall y, P x y <-> Q x y) xs ->
  Forall2 P xs ys <-> Forall2 Q xs ys.
Proof.
  intros H; revert ys; induction H as [|x r Hx Hr IH]; intros ys.
  - split; intros H; inversion H; constructor.
  - split; intros H; inversion H; subst; constructor;
      try (now apply Hx); now apply IH.
Qed.

Lemma _cast_to_type_coerced tc v :
  forall w, _cast_to_type v tc = Ok w <-> coerced tc v w.
Proof.
  assert (Hseq : forall v, is_list_or_tuple v = true ->
            Forall (fun x => forall w, _cast_to_type x tc = Ok w <-> coerced tc x w)
                   (items v) ->
            forall w, _cast_to_type v tc = Ok w <-> coerced tc v w).
  { clear v; intros v Hv IH w. rewrite (_cast_to_type_seq tc v Hv). split.
    - destruct (mapM _ (items v)) as [ys|e] eqn:Hm; simpl; [|discriminate].
      intros [= <-]. apply coerced_seq; [exact Hv|].
      apply (Forall2_under _ _ _ _ IH). now apply mapM_Ok_iff.
    - intros H; inversion H as [v' w' Hl|v' ys Hl Hys]; subst.
      + congruence.
      + apply (Forall2_under _ _ _ _ IH) in Hys. apply mapM_Ok_iff in Hys.
        now rewrite Hys. }
  induction v as [| | | | |xs IH|xs IH|] using pyval_ind;
    try (apply Hseq; [reflexivity | exact IH]);
    intros w; (split;
      [ intros H; apply coerced_leaf; [reflexivity | exact H]
      | intros H; inversion H as [v' w' Hl Hc|v' ys Hl]; subst;
        [exact Hc | discriminate] ]).
Qed.

End Coercion.

(** C2 (as amended): a [type_cast] argument, when given, is the coercion
    of the field whatever the type name; without one the declared type
    name, up to its first parenthesis, selects [int] for int, smallint and
    bigint, [str] (which leaves text as it is) for text and varchar,
    [float] for double precision, and the identity function for any other
    name. *)
Theorem coercion_selected_at_construction {lib : PyLib} :
  (forall kw,
     _type_cast (ArrayField_init kw) =
     match kw_type_cast kw with
     | Some f => f
     | None => coercion_of_name (before_paren (declared_name kw))
     end) /\
  (forall v, call builtin_int v = py_int v) /\
  (forall s, leaf_cast builtin_str (PStr s) = Ok (PStr s)) /\
  (forall v, call builtin_float v = py_float v) /\
  (forall v, call lambda_identity v = Ok v).
Proof.
  split; [|repeat split].
  intros kw. destruct (kw_type_cast kw) as [f|] eqn:H.
  - now apply type_cast_given.
  - now apply type_cast_by_name.
Qed.

(** C2, as stated, fails: a field declared ["int"] with [type_cast=float]
    coerces with [float], not with the integer parse its name selects. *)
Lemma coercion_by_name_alone_counterexample :
  ~ (forall kw,
       _type_cast (ArrayField_init kw) =
       coercion_of_name (before_paren (declared_name kw))).
Proof.
  intros H.
  specialize (H {| kw_dbtype := Some "int";
                   kw_type_cast := Some builtin_float;
                   kw_dimension := None |}).
  discriminate H.
Qed.

(** [Coerce(v, name)]: the coercion of a field declared with that type
    name, applied to [v]. *)
Definition Coerce {lib : PyLib} (v : pyval) (name : string) : result pyval :=
  _cast_to_type v (_type_cast (ArrayField_init (declared name))).

(** C3: coercion converts element by element and recurses into nested
    lists and tuples ([_cast_to_type] returns [w] exactly when [w] is the
    input with every element converted in place), and the three examples
    of the spec come out as stated. *)
Theorem coercion_elementwise {lib : PyLib} :
  (forall tc v w, _cast_to_type v tc = Ok w <-> coerced tc v w) /\
  Coerce (PList [PStr "1"; PStr "2"; PStr "3"]) "int"
    = Ok (PList [PInt 1; PInt 2; PInt 3]) /\
  Coerce (PList [PStr "1.5"; PStr "2.5"]) "double precision"
    = Ok (PList [PFloat float_1_5; PFloat float_2_5]) /\
  Coerce (PList [PStr "a"; PStr "b"]) "text"
    = Ok (PList [PStr "a"; PStr "b"]).
Proof.
  split; [intros tc v w; apply _cast_to_type_coerced|].
  repeat split; vm_compute; reflexivity.
Qed.

(** ** The shape of what the two helpers return *)

(** [same_shape v w]: wherever [v] has a list or tuple, [w] has a list of
    the same length, and so on inside, element by element. *)
#[warnings="-register-all"]
Inductive same_shape : pyval -> pyval -> Prop :=
| shape_leaf v w : is_list_or_tuple v = false -> same_shape v w
| shape_seq v ys :
    is_list_or_tuple v = true ->
    Forall2 same_shape (items v) ys -> same_shape v (PList ys).

Lemma Forall2_map_r {A B} (R : A -> B -> Prop) (f : A -> B) xs :
  Forall (fun x => R x (f x)) xs -> Forall2 R xs (map f xs).
Proof. induction 1; simpl; constructor; auto. Qed.

Lemma Forall2_weaken {A B} (P Q : A -> B -> Prop) xs ys :
  Forall (fun x => forall y, P x y -> Q x y) xs ->
  Forall2 P xs ys -> Forall2 Q xs ys.
Proof.
  intros H; revert ys; induction H as [|x r Hx Hr IH]; intros ys H2;
    inversion H2; subst; constructor; auto.
Qed.

Section Shape.
Context {lib : PyLib}.

(** [converts tc v]: the conversion succeeds on every element of [v] that
    is not a list or tuple. *)
Fixpoint converts (tc : callable) (v : pyval) : bool :=
  match v with
  | PList xs | PTuple xs => forallb (converts tc) xs
  | _ => match leaf_cast tc v with Ok _ => true | Raise _ => false end
  end.

Lemma _cast_to_unicode_seq v force :
  is_list_or_tuple v = true ->
  _cast_to_unicode v force =
  PList (map (fun x => _cast_to_unicode x force) (items v)).
Proof. destruct v; simpl; intros H; try discriminate; reflexivity. Qed.

Lemma _cast_to_unicode_shape force v :
  same_shape v (_cast_to_unicode v force).
Proof.
  induction v as [| | | | |xs IH|xs IH|] using pyval_ind;
    try (apply shape_leaf; reflexivity);
    simpl; apply shape_seq; try reflexivity; simpl;
    now apply Forall2_map_r.
Qed.

Lemma coerced_shape tc v : forall w, coerced tc v w -> same_shape v w.
Proof.
  induction v as [| | | | |xs IH|xs IH|] using pyval_ind;
    try (intros w _; apply shape_leaf; reflexivity);
    intros w H; inversion H as [v' w' Hl|v' ys Hl Hys]; subst;
    try discriminate;
    apply shape_seq; try reflexivity; simpl in *;
    eapply Forall2_weaken; eauto.
Qed.

Lemma converts_leaf tc v :
  is_list_or_tuple v = false ->
  converts tc v = true <-> exists w, _cast_to_type v tc = Ok w.
Proof.
  intros H. rewrite (_cast_to_type_leaf tc v H).
  replace (converts tc v)
    with (match leaf_cast tc v with Ok _ => true | Raise _ => false end)
    by (destruct v; try discriminate H; reflexivity).
  destruct (leaf_cast tc v); split; eauto; try discriminate.
  intros [? [=]].
Qed.

Lemma converts_iff tc v :
  converts tc v = true <-> exists w, _cast_to_type v tc = Ok w.
Proof.
  assert (Hseq : forall xs,
            Forall (fun x => converts tc x = true <->
                             exists w, _cast_to_type x tc = Ok w) xs ->
            forallb (converts tc) xs = true <->
            exists ys, mapM (fun x => _cast_to_type x tc) xs = Ok ys).
  { induction 1 as [|x r Hx Hr IH]; simpl.
    - split; eauto.
    - rewrite andb_true_iff, Hx, IH. split.
      + intros [[w Hw] [ys Hys]]. rewrite Hw, Hys; simpl; eauto.
      + destruct (_cast_to_type x tc) as [w|e]; simpl;
          [|intros [? [=]]].
        destruct (mapM _ r) as [ys|e]; simpl; [|intros [? [=]]].
        intros _; eauto. }
  induction v as [| | | | |xs IH|xs IH|] using pyval_ind;
    try (apply converts_leaf; reflexivity).
  - simpl. rewrite (Hseq xs IH).
    destruct (mapM _ xs); simpl; split; eauto; intros [? [=]].
  - simpl. rewrite (Hseq xs IH).
    destruct (mapM _ xs); simpl; split; eauto; intros [? [=]].
Qed.

End Shape.

(** C10 (as amended): for a list or tuple, [_cast_to_unicode] always
    returns a list of the same length whose i-th element is the cast of
    the input's i-th element, lists in place of tuples at every depth;
    [_cast_to_type] returns such a list whenever the conversion succeeds on
    every element, and otherwise raises what its first failing element
    raises. *)
Theorem helpers_return_lists {lib : PyLib} :
  (forall v force, is_list_or_tuple v = true ->
     exists ys,
       _cast_to_unicode v force = PList ys /\
       List.length ys = List.length (items v) /\
       (forall i x, nth_error (items v) i = Some x ->
                    nth_error ys i = Some (_cast_to_unicode x force)) /\
       same_shape v (PList ys)) /\
  (forall v tc, is_list_or_tuple v = true -> converts tc v = true ->
     exists ys,
       _cast_to_type v tc = Ok (PList ys) /\
       List.length ys = List.length (items v) /\
       (forall i x, nth_error (items v) i = Some x ->
                    exists y, nth_error ys i = Some y /\
                              _cast_to_type x tc = Ok y) /\
       same_shape v (PList ys)) /\
  (forall v tc, converts tc v = false ->
     exists e, _cast_to_type v tc = Raise e) /\
  (forall v tc e, is_list_or_tuple v = true -> _cast_to_type v tc = Raise e ->
     exists before x after,
       items v = before ++ x :: after /\
       _cast_to_type x tc = Raise e /\
       Forall (fun y => exists w, _cast_to_type y tc = Ok w) before).
Proof.
  split; [|split; [|split]].
  - intros v force Hv. eexists; split; [now apply _cast_to_unicode_seq|].
    split; [apply length_map|]. split.
    + intros i x Hx. now rewrite nth_error_map, Hx.
    + rewrite <- (_cast_to_unicode_seq v force Hv).
      apply _cast_to_unicode_shape.
  - intros v tc Hv Hc. apply converts_iff in Hc. destruct Hc as [w Hw].
    pose proof (proj1 (_cast_to_type_coerced tc v w) Hw) as Hco.
    rewrite (_cast_to_type_seq tc v Hv) in Hw.
    destruct (mapM _ (items v)) as [ys|e] eqn:Hm; simpl in Hw; [|discriminate].
    injection Hw as <-. exists ys.
    split; [rewrite (_cast_to_type_seq tc v Hv), Hm; reflexivity|].
    apply mapM_Ok_iff, Forall2_length_nth in Hm. destruct Hm as [Hlen Hnth].
    repeat split; auto. now apply (coerced_shape tc).
  - intros v tc Hc. destruct (_cast_to_type v tc) as [w|e] eqn:Hw; eauto.
    assert (converts tc v = true) by (apply converts_iff; eauto).
    congruence.
  - intros v tc e Hv He. rewrite (_cast_to_type_seq tc v Hv) in He.
    destruct (mapM _ (items v)) as [ys|e'] eqn:Hm; simpl in He; [discriminate|].
    injection He as ->. now apply mapM_Raise in Hm.
Qed.

Lemma helpers_return_lists_witness :
  exists ys,
    _cast_to_type (lib := Reference.lib)
      (PTuple [PStr "1"; PList [PStr "2"; PStr " 3 "]]) builtin_int
      = Ok (PList ys) /\
    List.length ys = 2%nat /\
    (forall i x,
       nth_error [PStr "1"; PList [PStr "2"; PStr " 3 "]] i = Some x ->
       exists y, nth_error ys i = Some y /\
                 _cast_to_type (lib := Reference.lib) x builtin_int = Ok y) /\
    same_shape (PTuple [PStr "1"; PList [PStr "2"; PStr " 3 "]]) (PList ys).
Proof.
  apply (proj1 (proj2 (helpers_return_lists (lib := Reference.lib)))
           (PTuple [PStr "1"; PList [PStr "2"; PStr " 3 "]]) builtin_int);
    reflexivity.
Defined.

(** C10, as stated, fails for the type-coercion helper: on [["a"]] with
    [int] it raises [ValueError] and returns no list. *)
Lemma cast_to_type_always_returns_counterexample :
  ~ (forall v tc, is_list_or_tuple v = true ->
       exists ys, _cast_to_type (lib := Reference.lib) v tc = Ok (PList ys) /\
                  List.length ys = List.length (items v)).
Proof.
  intros H. destruct (H (PList [PStr "a"]) builtin_int eq_refl) as (ys & Hys & _).
  discriminate Hys.
Qed.

(** ** Values that are already sequences *)

(** [v] with a list in place of every tuple, at every depth of lists and
    tuples. *)
Fixpoint as_lists (v : pyval) : pyval :=
  match v with
  | PList xs | PTuple xs => PList (map as_lists xs)
  | _ => v
  end.

(** No tuple at any depth of lists. *)
Fixpoint tuple_free (v : pyval) : bool :=
  match v with
  | PList xs => forallb tuple_free xs
  | PTuple _ => false
  | _ => true
  end.

Lemma as_lists_fixed v : as_lists v = v <-> tuple_free v = true.
Proof.
  induction v as [| | | | |xs IH|xs IH|] using pyval_ind; simpl;
    try (split; [reflexivity | discriminate]); try tauto.
  - rewrite forallb_forall. split.
    + intros [= H] x Hx. rewrite Forall_forall in IH. apply IH; [exact Hx|].
      clear IH. induction xs as [|a r IHr]; [destruct Hx|].
      simpl in H. injection H as Ha Hr. destruct Hx as [<-|Hx]; auto.
    + intros H. f_equal. induction IH as [|a r Ha Hr IHr]; simpl; [reflexivity|].
      f_equal.
      * apply Ha, H; now left.
      * apply IHr. intros x Hx; apply H; now right.
  - split; discriminate.
Qed.

Section Unserialize.
Context {lib : PyLib}.

Lemma _cast_to_unicode_as_lists v : _cast_to_unicode v false = as_lists v.
Proof.
  induction v as [| | | | |xs IH|xs IH|] using pyval_ind; simpl;
    try reflexivity;
    f_equal; induction IH as [|a r Ha Hr IHr]; simpl; congruence.
Qed.

Lemma _unserialize_not_string v :
  is_string v = false -> _unserialize v = Ok (as_lists v).
Proof.
  intros H. rewrite <- _cast_to_unicode_as_lists.
  destruct v; try discriminate H; reflexivity.
Qed.

End Unserialize.

(** C4 (as amended): on an input that is not text the form field's
    [to_python] returns the input unchanged; the model field's [to_python]
    returns it with every tuple replaced by a list of the same elements,
    which is the input itself exactly when it holds no tuple. *)
Theorem to_python_passes_sequences {lib : PyLib} :
  (forall form v, is_string v = false ->
     ArrayFormField_to_python form v = Ok v) /\
  (forall field v, is_string v = false ->
     ArrayField_to_python field v = Ok (as_lists v)) /\
  (forall v, as_lists v = v <-> tuple_free v = true).
Proof.
  split; [|split].
  - intros form v H. destruct v; try discriminate H; reflexivity.
  - intros field v H. now apply _unserialize_not_string.
  - apply as_lists_fixed.
Qed.

Lemma to_python_passes_sequences_witness :
  ArrayFormField_to_python {| item_field := None |}
    (PTuple [PInt 1; PList [PStr "a"]])
    = Ok (PTuple [PInt 1; PList [PStr "a"]]) /\
  ArrayField_to_python (lib := Reference.lib) (ArrayField_init (declared "int"))
    (PList [PInt 1; PList [PStr "a"]])
    = Ok (as_lists (PList [PInt 1; PList [PStr "a"]])).
Proof.
  split.
  - apply (proj1 (to_python_passes_sequences (lib := Reference.lib))).
    reflexivity.
  - apply (proj1 (proj2 (to_python_passes_sequences (lib := Reference.lib)))).
    reflexivity.
Defined.

(** C4, as stated, fails for the model field: the tuple [(1, 2)] comes
    back as the list [[1, 2]]. *)
Lemma model_to_python_unchanged_counterexample :
  ~ (forall field v, is_list_or_tuple v = true ->
       ArrayField_to_python (lib := Reference.lib) field v = Ok v).
Proof.
  intros H.
  specialize (H (ArrayField_init (declared "int")) (PTuple [PInt 1; PInt 2]) eq_refl).
  discriminate H.
Qed.

(** ** Coercion before the value is stored *)

(** C8 (as amended): [get_db_prep_value] returns the value as it is when
    it is false ([None], empty, zero) or text, whether [prepared] or
    not, and applies the field's coercion to every other value: element
    by element to a list or tuple that is not empty, and directly to a
    value that is no list or tuple, such as a number that is not zero. *)
Theorem get_db_prep_value_coerces {lib : PyLib} :
  forall (self : ArrayField) (prepared : bool),
    (forall v, truthy v = false -> get_db_prep_value self v prepared = Ok v) /\
    (forall v, is_string v = true -> get_db_prep_value self v prepared = Ok v) /\
    (forall v, truthy v = true -> is_string v = false ->
       get_db_prep_value self v prepared = _cast_to_type v (_type_cast self)) /\
    (forall v, truthy v = true -> is_string v = false ->
       is_list_or_tuple v = false ->
       get_db_prep_value self v prepared = leaf_cast (_type_cast self) v) /\
    get_db_prep_value self PNone prepared = Ok PNone /\
    get_db_prep_value self (PList []) prepared = Ok (PList []) /\
    get_db_prep_value self (PTuple []) prepared = Ok (PTuple []) /\
    (forall x xs,
       get_db_prep_value self (PList (x :: xs)) prepared =
       (ys <- mapM (fun y => _cast_to_type y (_type_cast self)) (x :: xs) ;;
        Ok (PList ys))) /\
    (forall x xs,
       get_db_prep_value self (PTuple (x :: xs)) prepared =
       (ys <- mapM (fun y => _cast_to_type y (_type_cast self)) (x :: xs) ;;
        Ok (PList ys))).
Proof.
  intros self prepared.
  assert (E : forall v, (if prepared then v else get_prep_value self v) = v)
    by (intros v; destruct prepared; reflexivity).
  unfold get_db_prep_value.
  split; [|split; [|split; [|split; [|split; [|split; [|split; [|split]]]]]]].
  - intros v Hv. now rewrite E, Hv.
  - intros v Hv. now rewrite E, Hv, orb_true_r.
  - intros v Hv Hs. now rewrite E, Hv, Hs.
  - intros v Hv Hs Hl. rewrite E, Hv, Hs. now apply _cast_to_type_leaf.
  - now rewrite E.
  - now rewrite E.
  - now rewrite E.
  - intros x xs. now rewrite E.
  - intros x xs. now rewrite E.
Qed.

Lemma get_db_prep_value_coerces_witness :
  get_db_prep_value (lib := Reference.lib) (ArrayField_init (declared "int"))
    (PStr "{1,2}") false = Ok (PStr "{1,2}") /\
  get_db_prep_value (lib := Reference.lib) (ArrayField_init (declared "int"))
    (PList [PStr "1"; PInt 2]) false
  = _cast_to_type (lib := Reference.lib) (PList [PStr "1"; PInt 2])
      (_type_cast (ArrayField_init (declared "int"))) /\
  get_db_prep_value (lib := Reference.lib) (ArrayField_init (declared "int"))
    (PStr "") true = Ok (PStr "") /\
  get_db_prep_value (lib := Reference.lib) (ArrayField_init (declared "text"))
    (PInt 5) false
  = leaf_cast (lib := Reference.lib)
      (_type_cast (ArrayField_init (declared "text"))) (PInt 5).
Proof.
  split; [|split; [|split]].
  - apply (proj1 (proj2 (get_db_prep_value_coerces (lib := Reference.lib)
             (ArrayField_init (declared "int")) false))).
    reflexivity.
  - apply (proj1 (proj2 (proj2 (get_db_prep_value_coerces (lib := Reference.lib)
             (ArrayField_init (declared "int")) false))));
      reflexivity.
  - apply (proj1 (get_db_prep_value_coerces (lib := Reference.lib)
             (ArrayField_init (declared "int")) true)).
    reflexivity.
  - apply (proj1 (proj2 (proj2 (proj2
             (get_db_prep_value_coerces (lib := Reference.lib)
                (ArrayField_init (declared "text")) false)))));
      reflexivity.
Defined.

(** C8, as stated, fails: the coercion is not kept to lists and tuples.
    With the type [text] the integer [5] is stored as the text ['5'], and
    with the type [int] the float [2.5] as the integer [2]. *)
Lemma get_db_prep_value_scalar_counterexample :
  get_db_prep_value (lib := Reference.lib) (ArrayField_init (declared "text"))
    (PInt 5) false = Ok (PStr "5") /\
  get_db_prep_value (lib := Reference.lib) (ArrayField_init (declared "int"))
    (PFloat float_2_5) false = Ok (PInt 2) /\
  ~ (forall (self : ArrayField) v prepared,
       is_list_or_tuple v && truthy v = false ->
       get_db_prep_value (lib := Reference.lib) self v prepared = Ok v).
Proof.
  split; [reflexivity|]. split; [reflexivity|].
  intros H.
  specialize (H (ArrayField_init (declared "text")) (PInt 5) false eq_refl).
  discriminate H.
Qed.

(** ** What the model field parses *)





(** C6 (as amended): where [json.loads] rejects the empty text,
    [ArrayField.to_python] returns the empty text itself for the empty
    text, and [None] for [None]; neither raises. *)
Theorem model_to_python_empty {lib : PyLib} :
  json_loads "" = Raise ValueError ->
  forall self : ArrayField,
    ArrayField_to_python self (PStr "") = Ok (PStr "") /\
    ArrayField_to_python self PNone = Ok PNone.
Proof.
  intros H self. unfold ArrayField_to_python, _unserialize. now rewrite H.
Qed.

Lemma model_to_python_empty_witness :
  ArrayField_to_python (lib := Reference.lib)
    (ArrayField_init (declared "int")) (PStr "") = Ok (PStr "") /\
  ArrayField_to_python (lib := Reference.lib)
    (ArrayField_init (declared "int")) PNone = Ok PNone.
Proof.
  apply (model_to_python_empty (lib := Reference.lib)). reflexivity.
Defined.

(** C6, as stated, fails: the empty text parses to the empty text, which
    is no sequence of elements. *)
Lemma model_to_python_empty_counterexample :
  ~ (exists xs,
       ArrayField_to_python (lib := Reference.lib)
         (ArrayField_init (declared "int")) (PStr "") = Ok xs /\
       is_list_or_tuple xs = true).
Proof.
  intros (xs & H & Hxs). vm_compute in H. injection H as <-. discriminate Hxs.
Qed.

(** ** The array text: delimiters *)

(** A text with unbalanced delimiters or inconsistent nesting. *)
Definition malformed (s : string) : Prop := well_nested [] (chars s) = false.

Lemma comma_not_delimiter c :
  is_comma c = true -> is_open c = false /\ is_close c = false.
Proof.
  unfold is_comma, is_open, is_close. intros H.
  apply Ascii.eqb_eq in H; subst c. split; reflexivity.
Qed.

Lemma space_not_delimiter c :
  is_space c = true ->
  is_open c = false /\ is_close c = false /\ is_comma c = false.
Proof.
  unfold is_open, is_close, is_comma. intros H.
  destruct (Ascii.eqb_spec c "{"); [subst; discriminate|].
  destruct (Ascii.eqb_spec c "["); [subst; discriminate|].
  destruct (Ascii.eqb_spec c "}"); [subst; discriminate|].
  destruct (Ascii.eqb_spec c "]"); [subst; discriminate|].
  destruct (Ascii.eqb_spec c ","); [subst; discriminate|].
  repeat split.
Qed.

Lemma split_top_tokens open s : split_top open s <> Some [].
Proof.
  revert open; induction s as [|c r IH]; intros open; simpl.
  - destruct open; congruence.
  - destruct (is_comma c && _).
    + destruct (split_top [] r); simpl; congruence.
    + destruct (if is_open c then _ else _) as [[|? ?]|]; congruence.
Qed.

Lemma split_top_cons_None open r c :
  match split_top open r with
  | Some (t :: toks) => Some ((c :: t) :: toks)
  | _ => None
  end = None <-> split_top open r = None.
Proof.
  pose proof (split_top_tokens open r) as G.
  destruct (split_top open r) as [[|t toks]|]; split; congruence.
Qed.

Lemma split_top_well_nested open s :
  split_top open s = None <-> well_nested open s = false.
Proof.
  revert open; induction s as [|c r IH]; intros open; simpl.
  - destruct open; split; congruence.
  - destruct (is_comma c) eqn:Hc; simpl.
    + destruct (comma_not_delimiter c Hc) as [-> ->].
      destruct open as [|w open'].
      * rewrite <- IH. destruct (split_top [] r); simpl; split; congruence.
      * now rewrite split_top_cons_None.
    + destruct (is_open c); [now rewrite split_top_cons_None|].
      destruct (is_close c); [|now rewrite split_top_cons_None].
      destruct open as [|w open']; [split; reflexivity|].
      destruct (Ascii.eqb c w); simpl; [|split; reflexivity].
      now rewrite split_top_cons_None.
Qed.

Lemma rstrip_nil s : rstrip s = [] -> forallb is_space s = true.
Proof.
  induction s as [|c r IH]; simpl; [reflexivity|].
  destruct (rstrip r) as [|c' r'] eqn:Hr; [|discriminate].
  destruct (is_space c); [intros _; now apply IH | discriminate].
Qed.

Lemma lstrip_spaces s :
  forallb is_space (lstrip s) = true -> forallb is_space s = true.
Proof.
  induction s as [|c r IH]; simpl; [reflexivity|].
  destruct (is_space c) eqn:Hc; simpl; [exact IH | now rewrite Hc].
Qed.

Lemma strip_nil s : strip s = [] -> forallb is_space s = true.
Proof. intros H. now apply lstrip_spaces, rstrip_nil. Qed.

Lemma spaces_well_nested s :
  forallb is_space s = true -> well_nested [] s = true.
Proof.
  induction s as [|c r IH]; simpl; [reflexivity|].
  rewrite andb_true_iff. intros [Hc Hr].
  destruct (space_not_delimiter c Hc) as (-> & -> & _). now apply IH.
Qed.

Lemma length_chars s : List.length (chars s) = String.length s.
Proof. induction s; simpl; congruence. Qed.

Lemma unsnoc_app {A} (l : list A) inner x :
  unsnoc l = Some (inner, x) <-> l = inner ++ [x].
Proof.
  revert inner; induction l as [|a r IH]; intros inner.
  - split; [discriminate | destruct inner; discriminate].
  - destruct r as [|b r'].
    + split.
      * intros [= <- <-]. reflexivity.
      * destruct inner as [|i inner']; simpl.
        -- intros [= ->]. reflexivity.
        -- intros [= _ H]. destruct inner'; discriminate.
    + change (unsnoc (a :: b :: r'))
        with (option_map (fun p => (a :: fst p, snd p)) (unsnoc (b :: r'))).
      split.
      * destruct (unsnoc (b :: r')) as [[i y]|] eqn:Hu; simpl; [|discriminate].
        intros [= <- <-]. rewrite (proj1 (IH i) eq_refl). reflexivity.
      * destruct inner as [|a' inner']; cbn [app].
        -- intros [=].
        -- intros [= <- H]. apply IH in H. rewrite H. reflexivity.
Qed.

Lemma well_nested_app o1 a :
  well_nested o1 a = true ->
  forall open b, well_nested (o1 ++ open) (a ++ b) = well_nested open b.
Proof.
  revert o1; induction a as [|c r IH]; intros o1 Ha open b.
  - destruct o1; [reflexivity | discriminate].
  - simpl in *. destruct (is_open c).
    + apply (IH (closer_of c :: o1) Ha).
    + destruct (is_close c); [|now apply IH].
      destruct o1 as [|w o1']; [discriminate|]. simpl.
      apply andb_true_iff in Ha. destruct Ha as [-> Hr]. simpl.
      now apply IH.
Qed.

Lemma closer_closes c open :
  well_nested (closer_of c :: open) [closer_of c] = well_nested open [].
Proof. unfold closer_of. destruct (Ascii.eqb c "{"); reflexivity. Qed.

Lemma unwrap_Some t inner :
  unwrap t = Some inner ->
  exists c, is_open c = true /\ t = c :: inner ++ [closer_of c] /\
            well_nested [] inner = true.
Proof.
  unfold unwrap. destruct t as [|c r]; [discriminate|].
  destruct (is_open c) eqn:Hc; [|discriminate].
  destruct (unsnoc r) as [[i c']|] eqn:Hu; [|discriminate].
  destruct (Ascii.eqb_spec c' (closer_of c)); simpl; [|discriminate].
  destruct (well_nested [] i) eqn:Hw; [|discriminate].
  intros [= <-]. apply unsnoc_app in Hu. subst. now exists c.
Qed.

Lemma unwrap_well_nested t inner :
  unwrap t = Some inner -> well_nested [] t = true.
Proof.
  intros H. apply unwrap_Some in H. destruct H as (c & Hc & -> & Hw).
  pose proof (well_nested_app [] inner Hw [closer_of c] [closer_of c]) as H.
  cbn [app] in H. cbn [well_nested]. rewrite Hc, H.
  apply closer_closes.
Qed.

Lemma well_nested_spaces open s :
  forallb is_space s = true -> well_nested open s = well_nested open [].
Proof.
  induction s as [|c r IH]; [reflexivity|]. simpl.
  rewrite andb_true_iff. intros [Hc Hr].
  destruct (space_not_delimiter c Hc) as (-> & -> & _). now apply IH.
Qed.

Lemma well_nested_cons c x y :
  (forall open, well_nested open x = well_nested open y) ->
  forall open, well_nested open (c :: x) = well_nested open (c :: y).
Proof.
  intros H open. simpl. destruct (is_open c); [apply H|].
  destruct (is_close c); [|apply H].
  destruct open as [|w open']; [reflexivity|]. now rewrite H.
Qed.

Lemma well_nested_lstrip s open :
  well_nested open (lstrip s) = well_nested open s.
Proof.
  induction s as [|c r IH]; [reflexivity|]. simpl.
  destruct (is_space c) eqn:Hc; [|reflexivity].
  destruct (space_not_delimiter c Hc) as (-> & -> & _). exact IH.
Qed.

Lemma well_nested_rstrip s :
  forall open, well_nested open (rstrip s) = well_nested open s.
Proof.
  induction s as [|c r IH]; [reflexivity|]. intros open.
  change (rstrip (c :: r))
    with (match rstrip r with
          | [] => if is_space c then [] else [c]
          | x :: l => c :: x :: l
          end).
  destruct (rstrip r) as [|x l] eqn:Hr.
  - pose proof (rstrip_nil r Hr) as Hsp.
    destruct (is_space c) eqn:Hc.
    + symmetry. apply well_nested_spaces. simpl. now rewrite Hc.
    + apply well_nested_cons. intros o. symmetry. now apply well_nested_spaces.
  - now apply well_nested_cons.
Qed.

Lemma well_nested_strip s : well_nested [] (strip s) = well_nested [] s.
Proof. unfold strip. now rewrite well_nested_rstrip, well_nested_lstrip. Qed.

Lemma malformed_body s :
  well_nested [] s = false -> array_body s = s.
Proof.
  intros H. unfold array_body.
  destruct (unwrap (strip s)) as [inner|] eqn:Hu; [|reflexivity].
  apply unwrap_well_nested in Hu. rewrite well_nested_strip in Hu. congruence.
Qed.

Lemma malformed_parse_array s : malformed s -> parse_array s = Raise ValueError.
Proof.
  unfold malformed, parse_array. intros H. rewrite (malformed_body _ H). simpl.
  destruct (strip (chars s)) eqn:Hs.
  - apply strip_nil, spaces_well_nested in Hs. congruence.
  - apply split_top_well_nested in H. now rewrite H.
Qed.

(** *** The bound on nesting is never reached *)

Lemma split_top_lengths open s toks :
  split_top open s = Some toks ->
  Forall (fun t => (List.length t <= List.length s)%nat) toks.
Proof.
  revert open toks; induction s as [|c r IH]; intros open toks; simpl.
  - destruct open; [|discriminate]. intros [= <-]. repeat constructor.
  - assert (G : forall o toks',
              match split_top o r with
              | Some (t :: ts) => Some ((c :: t) :: ts)
              | _ => None
              end = Some toks' ->
              Forall (fun t => (List.length t <= S (List.length r))%nat) toks').
    { intros o toks'. destruct (split_top o r) as [[|t ts]|] eqn:Hs;
        try discriminate.
      intros [= <-]. apply IH in Hs. inversion Hs; subst.
      constructor; [simpl; lia|].
      eapply Forall_impl; [|eassumption]. simpl; intros; lia. }
    destruct (is_comma c && _).
    + destruct (split_top [] r) as [ts|] eqn:Hs; simpl; [|discriminate].
      intros [= <-]. apply IH in Hs. constructor; [simpl; lia|].
      eapply Forall_impl; [|eassumption]. simpl; intros; lia.
    + destruct (is_open c); [apply G|].
      destruct (is_close c); [|apply G].
      destruct open as [|w open']; [discriminate|].
      destruct (Ascii.eqb c w); [apply G | discriminate].
Qed.

Lemma lstrip_length s : (List.length (lstrip s) <= List.length s)%nat.
Proof.
  induction s as [|c r IH]; simpl; [lia|].
  destruct (is_space c); simpl; lia.
Qed.

Lemma rstrip_length s : (List.length (rstrip s) <= List.length s)%nat.
Proof.
  induction s as [|c r IH]; simpl; [lia|].
  destruct (rstrip r); [destruct (is_space c)|]; simpl in *; lia.
Qed.

Lemma strip_length s : (List.length (strip s) <= List.length s)%nat.
Proof.
  unfold strip. pose proof (rstrip_length (lstrip s)).
  pose proof (lstrip_length s). lia.
Qed.

Lemma parse_depth_enough n s :
  (List.length s < n)%nat -> parse_depth n s <> None.
Proof.
  revert s; induction n as [|n IH]; intros s Hn; [lia|]. simpl.
  destruct (strip s); [discriminate|].
  destruct (split_top [] s) as [toks|] eqn:Hs; [|discriminate].
  apply split_top_lengths in Hs.
  assert (Ht : Forall (fun t => (List.length t <= n)%nat) toks).
  { eapply Forall_impl; [|exact Hs]. simpl; intros; lia. }
  clear Hs. induction Ht as [|t ts Hlen _ IHt]; simpl; [discriminate|].
  assert (parse_token (parse_depth n) (strip t) <> None).
  { unfold parse_token. pose proof (strip_length t) as Hst.
    destruct (strip t) as [|c r] eqn:Ht; [discriminate|].
    destruct (is_open c); [|discriminate].
    destruct (unwrap (c :: r)) as [inner|] eqn:Hu; [|discriminate].
    apply unwrap_Some in Hu. destruct Hu as (c0 & _ & Hu & _).
    rewrite Hu in Hst. simpl in Hst. rewrite length_app in Hst. simpl in Hst.
    specialize (IH inner ltac:(lia)).
    destruct (parse_depth n inner) as [[?|?]|]; congruence. }
  destruct (parse_token _ (strip t)) as [[v|e]|]; try congruence.
  destruct (parse_tokens _ ts) as [[vs|e]|]; congruence.
Qed.

Lemma array_body_length s : (List.length (array_body s) <= List.length s)%nat.
Proof.
  unfold array_body. destruct (unwrap (strip s)) as [inner|] eqn:Hu; [|lia].
  apply unwrap_Some in Hu. destruct Hu as (c & _ & Hu & _).
  pose proof (strip_length s) as Hs. rewrite Hu in Hs. simpl in Hs.
  rewrite length_app in Hs. lia.
Qed.

(** [parse_array] is what the bounded parser computes. *)
Lemma parse_array_depth s :
  parse_depth (S (String.length s)) (array_body (chars s)) =
  Some match parse_array s with
       | Ok (PList xs) => Ok xs
       | Ok _ => Ok []
       | Raise e => Raise e
       end.
Proof.
  unfold parse_array.
  pose proof (parse_depth_enough (S (String.length s)) (array_body (chars s))) as H.
  pose proof (array_body_length (chars s)) as Hl.
  rewrite length_chars in Hl. specialize (H ltac:(lia)).
  destruct (parse_depth _ _) as [[xs|e]|]; congruence.
Qed.

(** C5: a text whose braces and brackets are unbalanced or wrongly nested
    makes [parse_array] raise [ValueError], and [ArrayFormField.to_python]
    turns that, like any [ValueError] of the parser, into the one
    validation message; it returns a value only for well-nested text.
    ["{1,2,"] is such a text. *)
Theorem malformed_text_is_reported :
  (forall form s, malformed s ->
     parse_array s = Raise ValueError /\
     ArrayFormField_to_python form (PStr s) =
     Raise (ValidationError "Please provide a comma-separated list of values.")) /\
  malformed "{1,2," /\
  (forall form s, parse_array s = Raise ValueError ->
     ArrayFormField_to_python form (PStr s) =
     Raise (ValidationError "Please provide a comma-separated list of values.")) /\
  (forall form s v, ArrayFormField_to_python form (PStr s) = Ok v ->
     ~ malformed s /\ parse_array s = Ok v).
Proof.
  repeat split.
  - now apply malformed_parse_array.
  - simpl. now rewrite (malformed_parse_array s).
  - intros form s H. simpl. now rewrite H.
  - intros Hm. simpl in H. now rewrite (malformed_parse_array s Hm) in H.
  - simpl in H. destruct (parse_array s) as [w|[]]; congruence.
Qed.

Lemma malformed_text_is_reported_witness :
  parse_array "{1,2]" = Raise ValueError /\
  ArrayFormField_to_python {| item_field := None |} (PStr "{1,2]") =
  Raise (ValidationError "Please provide a comma-separated list of values.").
Proof.
  apply (proj1 malformed_text_is_reported {| item_field := None |} "{1,2]").
  reflexivity.
Defined.

(** ** Sets and sorting *)

Lemma existsb_map {A B} (f : B -> bool) (g : A -> B) l :
  existsb f (map g l) = existsb (fun x => f (g x)) l.
Proof. induction l as [|x r IH]; simpl; [reflexivity | now rewrite IH]. Qed.

(** Elements of one kind that hash, compare equal only to themselves and
    are strictly and totally ordered by [<]: what [set] and [sort] do to a
    list of them. *)
Section Orderable.
Variable A : Type.
Variable inj : A -> pyval.
Variable ltb : A -> A -> bool.
Hypothesis inj_hashable : forall a, hashable (inj a) = true.
Hypothesis inj_eq : forall a b, py_eq (inj a) (inj b) = true <-> a = b.
Hypothesis inj_lt : forall a b, py_lt (inj a) (inj b) = Ok (ltb a b).
Hypothesis ltb_irrefl : forall a, ltb a a = false.
Hypothesis ltb_trans :
  forall a b c, ltb a b = true -> ltb b c = true -> ltb a c = true.
Hypothesis ltb_total : forall a b, a <> b -> ltb a b = true \/ ltb b a = true.

Definition lt_of (a b : A) : Prop := ltb a b = true.

Definition add_distinct (acc : list A) (x : A) : list A :=
  if existsb (fun y => py_eq (inj x) (inj y)) acc then acc else acc ++ [x].

(** The elements of [l] without repetition, first occurrences kept. *)
Definition distinct (l : list A) : list A := fold_left add_distinct l [].

Fixpoint insert_asc (x : A) (ys : list A) : list A :=
  match ys with
  | [] => [x]
  | y :: r => if ltb x y then x :: ys else y :: insert_asc x r
  end.

Fixpoint sort_asc (l : list A) : list A :=
  match l with
  | [] => []
  | x :: r => insert_asc x (sort_asc r)
  end.

(** The distinct elements of [l] in ascending order. *)
Definition sorted_distinct (l : list A) : list A := sort_asc (distinct l).

Lemma existsb_inj x acc :
  existsb (py_eq (inj x)) (map inj acc) = true <-> In x acc.
Proof.
  rewrite existsb_exists. split.
  - intros (y & Hy & He). apply in_map_iff in Hy. destruct Hy as (a & <- & Ha).
    apply inj_eq in He. now subst.
  - intros H. exists (inj x). split; [now apply in_map | now apply inj_eq].
Qed.

Lemma set_add_inj acc x :
  set_add (map inj acc) (inj x) = map inj (add_distinct acc x).
Proof.
  unfold set_add, add_distinct. rewrite existsb_map.
  destruct (existsb _ acc); [reflexivity|]. now rewrite map_app.
Qed.

Lemma fold_set_add_inj l acc :
  fold_left set_add (map inj l) (map inj acc) =
  map inj (fold_left add_distinct l acc).
Proof.
  revert acc; induction l as [|x r IH]; intros acc; simpl; [reflexivity|].
  now rewrite set_add_inj, IH.
Qed.

Lemma set_elements_inj l :
  set_elements (map inj l) = Ok (map inj (distinct l)).
Proof.
  unfold set_elements, distinct.
  replace (forallb hashable (map inj l)) with true.
  - now rewrite <- fold_set_add_inj.
  - symmetry. apply forallb_forall. intros v Hv.
    apply in_map_iff in Hv. destruct Hv as (a & <- & _). apply inj_hashable.
Qed.

Lemma add_distinct_spec acc x :
  NoDup acc ->
  NoDup (add_distinct acc x) /\
  forall a, In a (add_distinct acc x) <-> In a acc \/ a = x.
Proof.
  intros Hnd. unfold add_distinct.
  destruct (existsb _ acc) eqn:He.
  - assert (In x acc).
    { apply existsb_inj. now rewrite existsb_map. }
    split; [exact Hnd|]. intros a; split; [tauto|]. intros [ ? | -> ]; auto.
  - assert (~ In x acc).
    { intros Hin. apply existsb_inj in Hin. rewrite existsb_map in Hin. congruence. }
    split.
    + apply NoDup_app; [exact Hnd | repeat constructor; intros [] |].
      intros a Ha [ <- | [] ]. contradiction.
    + intros a. rewrite in_app_iff. simpl. intuition.
Qed.

Lemma fold_distinct_spec l acc :
  NoDup acc ->
  NoDup (fold_left add_distinct l acc) /\
  forall a, In a (fold_left add_distinct l acc) <-> In a acc \/ In a l.
Proof.
  revert acc; induction l as [|x r IH]; intros acc Hnd; simpl.
  - split; [exact Hnd | intros a; tauto].
  - destruct (add_distinct_spec acc x Hnd) as [Hnd' Hin].
    destruct (IH _ Hnd') as [Hr Hinr]. split; [exact Hr|].
    intros a. rewrite Hinr, Hin. intuition.
Qed.

Lemma distinct_spec l :
  NoDup (distinct l) /\ forall a, In a (distinct l) <-> In a l.
Proof.
  destruct (fold_distinct_spec l [] (NoDup_nil A)) as [Hnd Hin].
  split; [exact Hnd|]. intros a. rewrite (Hin a). simpl. tauto.
Qed.

Lemma insert_sorted_inj x ys :
  insert_sorted (inj x) (map inj ys) = Ok (map inj (insert_asc x ys)).
Proof.
  induction ys as [|y r IH]; simpl; [reflexivity|].
  rewrite inj_lt; simpl. destruct (ltb x y); [reflexivity|].
  now rewrite IH.
Qed.

Lemma list_sort_inj l : list_sort (map inj l) = Ok (map inj (sort_asc l)).
Proof.
  induction l as [|x r IH]; simpl; [reflexivity|].
  rewrite IH; simpl. apply insert_sorted_inj.
Qed.

Lemma insert_asc_perm x ys : Permutation (insert_asc x ys) (x :: ys).
Proof.
  induction ys as [|y r IH]; simpl; [reflexivity|].
  destruct (ltb x y); [reflexivity|].
  rewrite IH. apply perm_swap.
Qed.

Lemma sort_asc_perm l : Permutation (sort_asc l) l.
Proof.
  induction l as [|x r IH]; simpl; [reflexivity|].
  rewrite insert_asc_perm. now constructor.
Qed.

Lemma insert_asc_sorted x ys :
  ~ In x ys -> StronglySorted lt_of ys -> StronglySorted lt_of (insert_asc x ys).
Proof.
  induction ys as [|y r IH]; intros Hx Hs; simpl.
  - repeat constructor.
  - inversion Hs as [|y' r' Hr Hy]; subst.
    destruct (ltb x y) eqn:Hxy.
    + constructor; [exact Hs|]. constructor; [exact Hxy|].
      rewrite Forall_forall in *. intros z Hz. eapply ltb_trans; eauto.
      now apply Hy.
    + constructor.
      * apply IH; [|exact Hr]. intros Hin; apply Hx; now right.
      * assert (Hyx : ltb y x = true).
        { destruct (ltb_total x y) as [H|H]; [|congruence|exact H].
          intros ->; apply Hx; now left. }
        rewrite Forall_forall in *. intros z Hz.
        apply (Permutation_in _ (insert_asc_perm x r)) in Hz.
        destruct Hz as [<-|Hz]; [exact Hyx | now apply Hy].
Qed.

Lemma sort_asc_sorted l : NoDup l -> StronglySorted lt_of (sort_asc l).
Proof.
  induction 1 as [|x r Hx Hr IH]; simpl; [constructor|].
  apply insert_asc_sorted; [|exact IH].
  intros Hin. apply Hx. now apply (Permutation_in _ (sort_asc_perm r)).
Qed.

(** One ascending arrangement. *)
Lemma sorted_unique l1 l2 :
  StronglySorted lt_of l1 -> StronglySorted lt_of l2 ->
  Permutation l1 l2 -> l1 = l2.
Proof.
  intros H1; revert l2; induction H1 as [|a r Hr IH Ha]; intros l2 H2 Hp.
  - now apply Permutation_nil in Hp.
  - destruct H2 as [|b r2 Hr2 Hb].
    + symmetry in Hp. now apply Permutation_nil in Hp.
    + assert (a = b).
      { assert (Hain : In a (b :: r2))
          by (apply (Permutation_in _ Hp); now left).
        assert (Hbin : In b (a :: r))
          by (apply (Permutation_in _ (Permutation_sym Hp)); now left).
        destruct Hain as [->|Hain]; [reflexivity|].
        destruct Hbin as [->|Hbin]; [reflexivity|].
        rewrite Forall_forall in Ha, Hb.
        pose proof (ltb_trans _ _ _ (Ha _ Hbin) (Hb _ Hain)) as Hc.
        rewrite ltb_irrefl in Hc. discriminate. }
      subst b. f_equal. apply IH; [exact Hr2|].
      now apply Permutation_cons_inv in Hp.
Qed.

Lemma sort_asc_any_order p d :
  NoDup d -> Permutation d p -> sort_asc p = sort_asc d.
Proof.
  intros Hd Hp. apply sorted_unique.
  - apply sort_asc_sorted. now apply (Permutation_NoDup Hp).
  - now apply sort_asc_sorted.
  - rewrite !sort_asc_perm. now symmetry.
Qed.

Lemma sorted_distinct_spec l :
  StronglySorted lt_of (sorted_distinct l) /\
  NoDup (sorted_distinct l) /\
  forall a, In a (sorted_distinct l) <-> In a l.
Proof.
  destruct (distinct_spec l) as [Hnd Hin]. unfold sorted_distinct.
  split; [now apply sort_asc_sorted|]. split.
  - apply (Permutation_NoDup (Permutation_sym (sort_asc_perm _))), Hnd.
  - intros a. rewrite <- Hin. split; apply Permutation_in;
      [apply sort_asc_perm | symmetry; apply sort_asc_perm].
Qed.

(** [set] then [sort], whatever order the set yields its elements in. *)
Lemma set_then_sort {lib : PyLib} l :
  (distinct0 <- set_elements (map inj l) ;; list_sort (set_iter distinct0))
  = Ok (map inj (sorted_distinct l)).
Proof.
  rewrite set_elements_inj; simpl.
  destruct (Permutation_map_inv inj (distinct l)
              (set_iter_perm (map inj (distinct l)))) as (p & Hp & Hperm).
  rewrite Hp, list_sort_inj. unfold sorted_distinct.
  rewrite (sort_asc_any_order p (distinct l)); auto.
  apply distinct_spec.
Qed.

End Orderable.

(** *** Text and integers are such elements *)

Lemma ascii_compare_refl c : Ascii.compare c c = Eq.
Proof. apply N.compare_refl. Qed.

Lemma ascii_compare_trans x y z :
  Ascii.compare x y = Lt -> Ascii.compare y z = Lt -> Ascii.compare x z = Lt.
Proof.
  unfold Ascii.compare. rewrite !N.compare_lt_iff. apply N.lt_trans.
Qed.

Lemma string_compare_refl s : String.compare s s = Eq.
Proof.
  induction s as [|c r IH]; simpl; [reflexivity|].
  now rewrite ascii_compare_refl.
Qed.

Lemma string_compare_trans a b c :
  String.compare a b = Lt -> String.compare b c = Lt -> String.compare a c = Lt.
Proof.
  revert b c; induction a as [|x a' IH]; intros [|y b'] [|z c']; simpl;
    try discriminate; try reflexivity.
  destruct (Ascii.compare x y) eqn:Hxy; try discriminate;
    destruct (Ascii.compare y z) eqn:Hyz; try discriminate.
  - apply Ascii.compare_eq_iff in Hxy, Hyz. subst.
    rewrite ascii_compare_refl. apply IH.
  - apply Ascii.compare_eq_iff in Hxy. subst. now rewrite Hyz.
  - apply Ascii.compare_eq_iff in Hyz. subst. now rewrite Hxy.
  - now rewrite (ascii_compare_trans x y z).
Qed.

Lemma text_eq a b : py_eq (PStr a) (PStr b) = true <-> a = b.
Proof. apply String.eqb_eq. Qed.

Lemma text_ltb_irrefl a : String.ltb a a = false.
Proof. unfold String.ltb. now rewrite string_compare_refl. Qed.

Lemma text_ltb_trans a b c :
  String.ltb a b = true -> String.ltb b c = true -> String.ltb a c = true.
Proof.
  unfold String.ltb.
  destruct (String.compare a b) eqn:Hab; try discriminate.
  destruct (String.compare b c) eqn:Hbc; try discriminate.
  now rewrite (string_compare_trans a b c).
Qed.

Lemma text_ltb_total a b :
  a <> b -> String.ltb a b = true \/ String.ltb b a = true.
Proof.
  intros Hne. unfold String.ltb. rewrite (String.compare_antisym b a).
  destruct (String.compare a b) eqn:Hab; simpl; auto.
  apply String.compare_eq_iff in Hab. contradiction.
Qed.

Lemma int_eq a b : py_eq (PInt a) (PInt b) = true <-> a = b.
Proof.
  simpl. destruct (a ?= b) eqn:H.
  - apply Z.compare_eq_iff in H. tauto.
  - split; [discriminate|]. intros ->. rewrite Z.compare_refl in H. discriminate.
  - split; [discriminate|]. intros ->. rewrite Z.compare_refl in H. discriminate.
Qed.

Lemma int_ltb_trans a b c :
  (a <? b) = true -> (b <? c) = true -> (a <? c) = true.
Proof. rewrite !Z.ltb_lt. lia. Qed.

Lemma int_ltb_total a b : a <> b -> (a <? b) = true \/ (b <? a) = true.
Proof. rewrite !Z.ltb_lt. lia. Qed.

(** The distinct texts of [l] in ascending order of code points, and the
    distinct integers of [l] in ascending order. *)
Definition sorted_texts (l : list string) : list string :=
  sorted_distinct string PStr String.ltb l.
Definition sorted_ints (l : list Z) : list Z :=
  sorted_distinct Z PInt Z.ltb l.

Section SetForm.
Context {lib : PyLib}.

Lemma set_form_not_None form value :
  value <> PNone ->
  SetFormField_to_python form value =
  (parsed <- ArrayFormField_to_python form value ;;
   xs <- py_iter parsed ;;
   distinct0 <- set_elements xs ;;
   val <- list_sort (set_iter distinct0) ;;
   Ok (PList val)).
Proof. destruct value; try reflexivity. congruence. Qed.

Lemma set_form_texts form value parsed l :
  value <> PNone ->
  ArrayFormField_to_python form value = Ok parsed ->
  py_iter parsed = Ok (map PStr l) ->
  SetFormField_to_python form value = Ok (PList (map PStr (sorted_texts l))).
Proof.
  intros Hv Hp Hi. rewrite (set_form_not_None form value Hv), Hp; simpl.
  rewrite Hi; simpl.
  pose proof (set_then_sort string PStr String.ltb (fun _ => eq_refl) text_eq
                (fun _ _ => eq_refl) text_ltb_irrefl text_ltb_trans
                text_ltb_total l) as H.
  destruct (set_elements (map PStr l)) as [d|e]; simpl in *; [|discriminate].
  now rewrite H.
Qed.

Lemma set_form_ints form value parsed l :
  value <> PNone ->
  ArrayFormField_to_python form value = Ok parsed ->
  py_iter parsed = Ok (map PInt l) ->
  SetFormField_to_python form value = Ok (PList (map PInt (sorted_ints l))).
Proof.
  intros Hv Hp Hi. rewrite (set_form_not_None form value Hv), Hp; simpl.
  rewrite Hi; simpl.
  pose proof (set_then_sort Z PInt Z.ltb (fun _ => eq_refl) int_eq
                (fun _ _ => eq_refl) Z.ltb_irrefl int_ltb_trans
                int_ltb_total l) as H.
  destruct (set_elements (map PInt l)) as [d|e]; simpl in *; [|discriminate].
  now rewrite H.
Qed.

Lemma set_form_unhashable form value parsed xs :
  value <> PNone ->
  ArrayFormField_to_python form value = Ok parsed ->
  py_iter parsed = Ok xs ->
  forallb hashable xs = false ->
  SetFormField_to_python form value = Raise TypeError.
Proof.
  intros Hv Hp Hi Hh. rewrite (set_form_not_None form value Hv), Hp; simpl.
  rewrite Hi; simpl. unfold set_elements. now rewrite Hh.
Qed.

End SetForm.

(** C7 (as amended): [SetFormField.to_python] returns [None] for [None];
    for any other input whose standard parse is a sequence of text only,
    or of integers only, it returns the distinct elements of that
    sequence in ascending order, whatever order the set yields them in;
    the text ["3,1,2,1"] gives the texts ["1"], ["2"], ["3"]; and when an
    element of the parse is unhashable, as a nested list is, it raises
    [TypeError]. *)
Theorem set_form_dedup_sort {lib : PyLib} :
  (forall form, SetFormField_to_python form PNone = Ok PNone) /\
  (forall form value parsed l,
     value <> PNone ->
     ArrayFormField_to_python form value = Ok parsed ->
     py_iter parsed = Ok (map PStr l) ->
     SetFormField_to_python form value = Ok (PList (map PStr (sorted_texts l)))) /\
  (forall l,
     StronglySorted (lt_of string String.ltb) (sorted_texts l) /\
     NoDup (sorted_texts l) /\
     forall a, In a (sorted_texts l) <-> In a l) /\
  (forall form value parsed l,
     value <> PNone ->
     ArrayFormField_to_python form value = Ok parsed ->
     py_iter parsed = Ok (map PInt l) ->
     SetFormField_to_python form value = Ok (PList (map PInt (sorted_ints l)))) /\
  (forall l,
     StronglySorted (lt_of Z Z.ltb) (sorted_ints l) /\
     NoDup (sorted_ints l) /\
     forall a, In a (sorted_ints l) <-> In a l) /\
  (forall form,
     SetFormField_to_python form (PStr "3,1,2,1")
     = Ok (PList [PStr "1"; PStr "2"; PStr "3"])) /\
  (forall form value parsed xs,
     value <> PNone ->
     ArrayFormField_to_python form value = Ok parsed ->
     py_iter parsed = Ok xs ->
     forallb hashable xs = false ->
     SetFormField_to_python form value = Raise TypeError).
Proof.
  split; [reflexivity|].
  split; [apply @set_form_texts|].
  split.
  { intros l. apply sorted_distinct_spec;
      first [ apply text_eq | apply text_ltb_irrefl
            | apply text_ltb_trans | apply text_ltb_total ]. }
  split; [apply @set_form_ints|].
  split.
  { intros l. apply sorted_distinct_spec;
      first [ apply int_eq | apply Z.ltb_irrefl
            | apply int_ltb_trans | apply int_ltb_total ]. }
  split; [|apply @set_form_unhashable].
  intros form.
  rewrite (set_form_texts form (PStr "3,1,2,1")
             (PList (map PStr ["3"; "1"; "2"; "1"])) ["3"; "1"; "2"; "1"]);
    try reflexivity.
  discriminate.
Qed.

Lemma set_form_dedup_sort_witness :
  SetFormField_to_python (lib := Reference.lib) {| item_field := None |}
    (PStr "pear, fig ,pear,apple")
  = Ok (PList (map PStr (sorted_texts ["pear"; "fig"; "pear"; "apple"]))) /\
  SetFormField_to_python (lib := Reference.lib) {| item_field := None |}
    (PTuple [PInt 10; PInt 9; PInt 10])
  = Ok (PList (map PInt (sorted_ints [10; 9; 10]))).
Proof.
  split.
  - apply (proj1 (proj2 (set_form_dedup_sort (lib := Reference.lib)))
             {| item_field := None |} (PStr "pear, fig ,pear,apple")
             (PList (map PStr ["pear"; "fig"; "pear"; "apple"])));
      [discriminate | reflexivity | reflexivity].
  - apply (proj1 (proj2 (proj2 (proj2 (set_form_dedup_sort (lib := Reference.lib)))))
             {| item_field := None |} (PTuple [PInt 10; PInt 9; PInt 10])
             (PTuple (map PInt [10; 9; 10])));
      [discriminate | reflexivity | reflexivity].
Defined.

(** C7, as stated, fails: the nested list [[[1, 2], [3, 4]]] and the text
    ["{1,2},{3,4}"] both parse, and on both [set] raises [TypeError]
    instead of a sorted list being returned. *)
Lemma set_form_nested_counterexample :
  (ArrayFormField_to_python {| item_field := None |}
     (PList [PList [PInt 1; PInt 2]; PList [PInt 3; PInt 4]])
   = Ok (PList [PList [PInt 1; PInt 2]; PList [PInt 3; PInt 4]]) /\
   SetFormField_to_python (lib := Reference.lib) {| item_field := None |}
     (PList [PList [PInt 1; PInt 2]; PList [PInt 3; PInt 4]])
   = Raise TypeError) /\
  (ArrayFormField_to_python {| item_field := None |} (PStr "{1,2},{3,4}")
   = Ok (PList [PList [PStr "1"; PStr "2"]; PList [PStr "3"; PStr "4"]]) /\
   SetFormField_to_python (lib := Reference.lib) {| item_field := None |}
     (PStr "{1,2},{3,4}")
   = Raise TypeError).
Proof. repeat split; reflexivity. Qed.

(** * Further properties of the module *)

(** ** The two casts *)

(** [p] holds of every element of [v] that is not a list or tuple, at
    every depth. *)
Fixpoint scalars_all (p : pyval -> bool) (v : pyval) : bool :=
  match v with
  | PList xs | PTuple xs => forallb (scalars_all p) xs
  | _ => p v
  end.

Definition is_int (v : pyval) : bool :=
  match v with PInt _ => true | _ => false end.

Definition is_float (v : pyval) : bool :=
  match v with PFloat _ => true | _ => false end.

(** [type_cast] is one of the coercions [__init__] itself selects. *)
Definition selected (tc : callable) : bool :=
  match tc with callable_other _ => false | _ => true end.

Lemma mapM_pure {A B} (f : A -> result B) (g : A -> B) xs :
  Forall (fun x => f x = Ok (g x)) xs -> mapM f xs = Ok (map g xs).
Proof.
  induction 1 as [|x r Hx Hr IH]; simpl; [reflexivity|].
  rewrite Hx; simpl. fold (mapM f r). now rewrite IH.
Qed.

Lemma mapM_fixed {A} (f : A -> result A) xs :
  Forall (fun x => f x = Ok x) xs -> mapM f xs = Ok xs.
Proof. intros H. rewrite (mapM_pure f (fun x => x) xs H). now rewrite map_id. Qed.

Lemma forallb_map_Forall {A B} (p : B -> bool) (g : A -> B) xs :
  Forall (fun x => p (g x) = true) xs -> forallb p (map g xs) = true.
Proof. induction 1 as [|x r Hx Hr IH]; simpl; [reflexivity | now rewrite Hx]. Qed.

Section Casts.
Context {lib : PyLib}.

Lemma forced_text_only v :
  scalars_all is_string (_cast_to_unicode v true) = true
  /\ tuple_free (_cast_to_unicode v true) = true.
Proof.
  induction v as [| | | | |xs IH|xs IH|] using pyval_ind;
    try (split; reflexivity);
    simpl; split; apply forallb_map_Forall;
    (eapply Forall_impl; [|exact IH]); simpl; tauto.
Qed.

Lemma _cast_to_unicode_tuple_free v force :
  tuple_free (_cast_to_unicode v force) = true.
Proof.
  induction v as [| | | | |xs IH|xs IH|] using pyval_ind;
    try (destruct force; reflexivity);
    simpl; now apply forallb_map_Forall.
Qed.

Lemma _cast_to_unicode_again v force force' :
  (force' = true -> force = true) ->
  _cast_to_unicode (_cast_to_unicode v force) force' = _cast_to_unicode v force.
Proof.
  intros Hf.
  induction v as [| | | | |xs IH|xs IH|] using pyval_ind;
    try (destruct force, force'; try reflexivity;
         discriminate (Hf eq_refl));
    simpl; f_equal; rewrite map_map;
    induction IH as [|a r Ha Hr IHr]; simpl; congruence.
Qed.

Lemma cast_str_is_unicode v :
  _cast_to_type v builtin_str = Ok (_cast_to_unicode v true).
Proof.
  induction v as [| | | | |xs IH|xs IH|] using pyval_ind; try reflexivity;
    simpl; fold (mapM (fun x => _cast_to_type x builtin_str) xs);
    now rewrite (mapM_pure _ (fun x => _cast_to_unicode x true) xs IH).
Qed.

Lemma cast_identity_is_as_lists v :
  _cast_to_type v lambda_identity = Ok (as_lists v).
Proof.
  induction v as [| | | | |xs IH|xs IH|] using pyval_ind; try reflexivity;
    simpl; fold (mapM (fun x => _cast_to_type x lambda_identity) xs);
    now rewrite (mapM_pure _ as_lists xs IH).
Qed.

Lemma py_int_gives_int v w : py_int v = Ok w -> is_int w = true.
Proof.
  destruct v; simpl; try discriminate.
  - now intros [= <-].
  - now intros [= <-].
  - destruct (int_of_float f); simpl; [now intros [= <-] | discriminate].
  - destruct (int_of_text s); simpl; [now intros [= <-] | discriminate].
Qed.

Lemma py_float_gives_float v w : py_float v = Ok w -> is_float w = true.
Proof.
  destruct v; simpl; try discriminate.
  - now intros [= <-].
  - destruct (float_of_int n); simpl; [now intros [= <-] | discriminate].
  - now intros [= <-].
  - destruct (float_of_text s); simpl; [now intros [= <-] | discriminate].
Qed.

(** What one element becomes under a selected coercion is again an
    element, and coercing it again leaves it alone. *)
Lemma leaf_cast_settles tc v w :
  selected tc = true -> is_list_or_tuple v = false ->
  leaf_cast tc v = Ok w ->
  is_list_or_tuple w = false /\ leaf_cast tc w = Ok w.
Proof.
  intros Hs Hv. destruct tc; try discriminate Hs; unfold leaf_cast; simpl.
  - intros H. apply py_int_gives_int in H. destruct w; try discriminate H.
    now split.
  - intros [= <-]. now split.
  - intros H. apply py_float_gives_float in H. destruct w; try discriminate H.
    now split.
  - intros [= <-]. now split.
Qed.

Lemma cast_settles tc v :
  selected tc = true ->
  forall w, _cast_to_type v tc = Ok w ->
            _cast_to_type w tc = Ok w /\ tuple_free w = true.
Proof.
  intros Hs.
  assert (Hseq : forall xs,
            Forall (fun x => forall w, _cast_to_type x tc = Ok w ->
                      _cast_to_type w tc = Ok w /\ tuple_free w = true) xs ->
            forall ys, mapM (fun x => _cast_to_type x tc) xs = Ok ys ->
                       _cast_to_type (PList ys) tc = Ok (PList ys)
                       /\ tuple_free (PList ys) = true).
  { intros xs IH ys Hm. apply mapM_Ok_iff in Hm.
    assert (Hys : Forall (fun y => _cast_to_type y tc = Ok y
                                   /\ tuple_free y = true) ys).
    { revert IH. induction Hm as [|x y r ys' Hxy Hr IHr]; intros IH;
        [constructor|].
      inversion IH as [|? ? Hx Hrest]; subst. constructor; auto. }
    split.
    - simpl. fold (mapM (fun x => _cast_to_type x tc) ys).
      rewrite mapM_fixed; [reflexivity|].
      eapply Forall_impl; [|exact Hys]. simpl; tauto.
    - simpl. apply forallb_forall. rewrite Forall_forall in Hys.
      intros y Hy. now apply Hys. }
  assert (Hleaf : forall u, is_list_or_tuple u = false ->
            forall w, _cast_to_type u tc = Ok w ->
                      _cast_to_type w tc = Ok w /\ tuple_free w = true).
  { intros u Hu w Hw. rewrite (_cast_to_type_leaf tc u Hu) in Hw.
    destruct (leaf_cast_settles tc u w Hs Hu Hw) as [Hl Hc].
    split; [now rewrite (_cast_to_type_leaf tc w Hl)|].
    destruct w; try discriminate Hl; reflexivity. }
  induction v as [| | | | |xs IH|xs IH|] using pyval_ind;
    try (apply Hleaf; reflexivity); intros w Hw.
  - simpl in Hw. fold (mapM (fun x => _cast_to_type x tc) xs) in Hw.
    destruct (mapM (fun x => _cast_to_type x tc) xs) as [ys|e] eqn:Hm;
      simpl in Hw; [|discriminate].
    injection Hw as <-. now apply (Hseq xs IH).
  - simpl in Hw. fold (mapM (fun x => _cast_to_type x tc) xs) in Hw.
    destruct (mapM (fun x => _cast_to_type x tc) xs) as [ys|e] eqn:Hm;
      simpl in Hw; [|discriminate].
    injection Hw as <-. now apply (Hseq xs IH).
Qed.

End Casts.

Lemma map_eq_Forall {A B} (f g : A -> B) xs :
  map f xs = map g xs <-> Forall (fun x => f x = g x) xs.
Proof.
  induction xs as [|x r IH]; simpl.
  - split; [constructor | reflexivity].
  - split.
    + intros [= Hx Hr]. constructor; [exact Hx | now apply IH].
    + intros H. inversion H; subst. f_equal; [assumption | now apply IH].
Qed.

Lemma Forall2_flip_in {A B} (R : A -> B -> Prop) xs ys :
  Forall2 R xs ys ->
  (forall y, In y ys -> exists x, In x xs /\ R x y) /\
  (forall x, In x xs -> exists y, In y ys /\ R x y).
Proof.
  induction 1 as [|x y xs ys Hxy H [IH1 IH2]]; simpl.
  - split; intros ? [].
  - split.
    + intros y' [<-|Hy]; [eauto|].
      destruct (IH1 y' Hy) as (x' & Hx' & Hr). eauto.
    + intros x' [<-|Hx]; [eauto|].
      destruct (IH2 x' Hx) as (y' & Hy' & Hr). eauto.
Qed.

Section CastResults.
Context {lib : PyLib}.

Lemma cast_scalars tc (p : pyval -> bool) :
  (forall v w, is_list_or_tuple v = false -> leaf_cast tc v = Ok w ->
               p w = true /\ is_list_or_tuple w = false) ->
  forall v w, _cast_to_type v tc = Ok w -> scalars_all p w = true.
Proof.
  intros Hp v.
  induction v as [| | | | |xs IH|xs IH|] using pyval_ind; intros w Hw;
    try (apply _cast_to_type_coerced in Hw;
         inversion Hw as [v' w' Hl Hc|v' ys Hl Hys]; subst; [|discriminate Hl];
         destruct (Hp _ _ Hl Hc) as [Hpw Hlw];
         destruct w; try discriminate Hlw; exact Hpw).
  - apply _cast_to_type_coerced in Hw.
    inversion Hw as [v' w' Hl Hc|v' ys Hl Hys]; subst; [discriminate Hl|].
    simpl in Hys. simpl. apply forallb_forall. intros y Hy.
    rewrite Forall_forall in IH.
    destruct (proj1 (Forall2_flip_in _ _ _ Hys) y Hy) as (x & Hx & Hxy).
    apply (IH x Hx). now apply _cast_to_type_coerced.
  - apply _cast_to_type_coerced in Hw.
    inversion Hw as [v' w' Hl Hc|v' ys Hl Hys]; subst; [discriminate Hl|].
    simpl in Hys. simpl. apply forallb_forall. intros y Hy.
    rewrite Forall_forall in IH.
    destruct (proj1 (Forall2_flip_in _ _ _ Hys) y Hy) as (x & Hx & Hxy).
    apply (IH x Hx). now apply _cast_to_type_coerced.
Qed.

End CastResults.

(** X1: [value_to_string] returns text, or lists of text nested in
    lists: no number, [None] or tuple is left at any depth. *)
Theorem value_to_string_is_text {lib : PyLib} :
  forall (self : ArrayField) (v : pyval),
    scalars_all is_string (value_to_string self v) = true /\
    tuple_free (value_to_string self v) = true.
Proof. intros self v. apply forced_text_only. Qed.

(** X2: casting to unicode twice is casting once, with or without
    [force], and an unforced cast leaves a forced one as it is. *)
Theorem _cast_to_unicode_idempotent {lib : PyLib} :
  forall v,
    (forall force,
       _cast_to_unicode (_cast_to_unicode v force) force
       = _cast_to_unicode v force) /\
    _cast_to_unicode (_cast_to_unicode v true) false = _cast_to_unicode v true.
Proof.
  intros v. split.
  - intros force. now apply _cast_to_unicode_again.
  - apply _cast_to_unicode_again. discriminate.
Qed.

(** X3: coercion with [str] never raises and is the forced unicode cast:
    every element becomes its text. *)
Theorem str_coercion_is_forced_cast {lib : PyLib} :
  forall v, _cast_to_type v builtin_str = Ok (_cast_to_unicode v true).
Proof. apply @cast_str_is_unicode. Qed.

(** X4: coercion with the identity function of an unknown type name never
    raises, but is not the identity: it rebuilds as a list every tuple it
    reaches through lists and tuples, and returns its input exactly when
    it reaches no tuple that way. A dict is a leaf to it: it is returned
    as it is, with any tuple it holds. *)
Theorem identity_coercion_rebuilds_lists {lib : PyLib} :
  (forall v,
     _cast_to_type v lambda_identity = Ok (as_lists v) /\
     (_cast_to_type v lambda_identity = Ok v <-> tuple_free v = true)) /\
  (forall kvs xs,
     tuple_free (PList (PDict kvs :: xs)) = tuple_free (PList xs) /\
     _cast_to_type (PList (PDict kvs :: xs)) lambda_identity
     = Ok (PList (PDict kvs :: map as_lists xs))).
Proof.
  split.
  - intros v. rewrite cast_identity_is_as_lists. split; [reflexivity|].
    rewrite <- as_lists_fixed. split; [now intros [= ->] | now intros ->].
  - intros kvs xs. split; [reflexivity|].
    now rewrite cast_identity_is_as_lists.
Qed.

(** X5: for the coercions [__init__] selects ([int], [str], [float], the
    identity), a value that came out of the coercion is left unchanged by
    coercing it again. *)
Theorem selected_coercion_idempotent {lib : PyLib} :
  forall tc v w,
    selected tc = true ->
    _cast_to_type v tc = Ok w ->
    _cast_to_type w tc = Ok w.
Proof. intros tc v w Hs Hw. now apply (cast_settles tc v Hs w Hw). Qed.

Lemma selected_coercion_idempotent_witness :
  _cast_to_type (lib := Reference.lib)
    (PList [PInt 7; PList [PInt (-2); PInt 1]]) builtin_int
  = Ok (PList [PInt 7; PList [PInt (-2); PInt 1]]).
Proof.
  apply (selected_coercion_idempotent (lib := Reference.lib) builtin_int
           (PTuple [PStr " 7"; PList [PFloat (b64_of_Z (-2)); PBool true]]));
    reflexivity.
Defined.

(** X6: what a coercion returns holds only values of its type: integers
    after [int], floats after [float], text after [str], in lists nested
    in lists and never in a tuple. *)
Theorem coercion_result_is_typed {lib : PyLib} :
  forall v w,
    (_cast_to_type v builtin_int = Ok w ->
     scalars_all is_int w = true /\ tuple_free w = true) /\
    (_cast_to_type v builtin_float = Ok w ->
     scalars_all is_float w = true /\ tuple_free w = true) /\
    (_cast_to_type v builtin_str = Ok w ->
     scalars_all is_string w = true /\ tuple_free w = true).
Proof.
  intros v w. split; [|split]; intros H.
  - split; [|exact (proj2 (cast_settles builtin_int v eq_refl w H))].
    revert H. apply cast_scalars. unfold leaf_cast; simpl. intros x y _ Hy.
    apply py_int_gives_int in Hy. destruct y; try discriminate Hy. now split.
  - split; [|exact (proj2 (cast_settles builtin_float v eq_refl w H))].
    revert H. apply cast_scalars. unfold leaf_cast; simpl. intros x y _ Hy.
    apply py_float_gives_float in Hy. destruct y; try discriminate Hy.
    now split.
  - split; [|exact (proj2 (cast_settles builtin_str v eq_refl w H))].
    revert H. apply cast_scalars. unfold leaf_cast; simpl.
    intros x y _ [= <-]. now split.
Qed.

Lemma coercion_result_is_typed_witness :
  scalars_all is_int (PList [PInt 7; PList [PInt (-2); PInt 1]]) = true /\
  tuple_free (PList [PInt 7; PList [PInt (-2); PInt 1]]) = true.
Proof.
  apply (proj1 (coercion_result_is_typed (lib := Reference.lib)
                  (PTuple [PStr " 7"; PList [PFloat (b64_of_Z (-2)); PBool true]])
                  (PList [PInt 7; PList [PInt (-2); PInt 1]]))).
  reflexivity.
Defined.

(** A value that is neither falsy nor a text goes through the coercion,
    prepared or not. *)
Lemma get_db_prep_value_casts {lib : PyLib} (self : ArrayField) v prepared :
  truthy v = true -> is_string v = false ->
  get_db_prep_value self v prepared = _cast_to_type v (_type_cast self).
Proof.
  intros Ht Hs. unfold get_db_prep_value, get_prep_value.
  destruct prepared; rewrite Ht, Hs; reflexivity.
Qed.

(** X7: what [get_db_prep_value] returns for a list or tuple that is not
    empty, under a selected coercion, is a value that [to_python] returns
    unchanged and that [get_db_prep_value] returns unchanged. *)
Theorem stored_value_reads_back {lib : PyLib} :
  forall (self : ArrayField) v prepared w,
    selected (_type_cast self) = true ->
    is_list_or_tuple v = true -> truthy v = true ->
    get_db_prep_value self v prepared = Ok w ->
    ArrayField_to_python self w = Ok w /\
    get_db_prep_value self w prepared = Ok w.
Proof.
  intros self v prepared w Hs Hv Ht Hw.
  assert (Hc : _cast_to_type v (_type_cast self) = Ok w).
  { rewrite <- Hw. symmetry. apply get_db_prep_value_casts; [exact Ht|].
    destruct v; try discriminate Hv; reflexivity. }
  destruct (cast_settles _ v Hs w Hc) as [Hagain Hfree].
  assert (Hw' : is_list_or_tuple w = true /\ truthy w = true).
  { rewrite (_cast_to_type_seq _ v Hv) in Hc.
    destruct (mapM _ (items v)) as [ys|e] eqn:Hm; simpl in Hc; [|discriminate].
    injection Hc as <-. split; [reflexivity|].
    apply mapM_Ok_iff in Hm.
    destruct v as [| | | | |[|x xs]|[|x xs]|]; try discriminate;
      inversion Hm; reflexivity. }
  destruct Hw' as [Hlw Htw]. split.
  - unfold ArrayField_to_python. rewrite _unserialize_not_string.
    + f_equal. now apply as_lists_fixed.
    + destruct w; try discriminate Hlw; reflexivity.
  - rewrite get_db_prep_value_casts; [exact Hagain | exact Htw|].
    destruct w; try discriminate Hlw; reflexivity.
Qed.

Lemma stored_value_reads_back_witness :
  ArrayField_to_python (lib := Reference.lib)
    (ArrayField_init (declared "bigint")) (PList [PInt 3; PInt 4])
  = Ok (PList [PInt 3; PInt 4]) /\
  get_db_prep_value (lib := Reference.lib)
    (ArrayField_init (declared "bigint")) (PList [PInt 3; PInt 4]) false
  = Ok (PList [PInt 3; PInt 4]).
Proof.
  apply (stored_value_reads_back (lib := Reference.lib)
           (ArrayField_init (declared "bigint"))
           (PTuple [PStr "3"; PInt 4]) false);
    reflexivity.
Defined.


(** X9: a value [ArrayField.to_python] returns has no tuple at any depth
    of lists, and when it is not text [to_python] returns it unchanged.
    A dict is a leaf: it comes back as it is, with any tuple it holds. *)
Theorem model_to_python_result_settled {lib : PyLib} :
  forall (self : ArrayField) v r,
    ArrayField_to_python self v = Ok r ->
    tuple_free r = true /\
    (is_string r = false -> ArrayField_to_python self r = Ok r) /\
    (forall kvs xs,
       v = PList (PDict kvs :: xs) ->
       r = PList (PDict kvs :: map as_lists xs)).
Proof.
  intros self v r Hr.
  assert (Hfree : tuple_free r = true).
  { unfold ArrayField_to_python in Hr. destruct (is_string v) eqn:Hv.
    - destruct v as [| | | |s| | |]; try discriminate Hv.
      unfold _unserialize in Hr.
      destruct (json_loads s) as [d|[]]; try discriminate;
        injection Hr as <-;
        [apply _cast_to_unicode_tuple_free | reflexivity].
    - rewrite (_unserialize_not_string v Hv) in Hr. injection Hr as <-.
      rewrite <- _cast_to_unicode_as_lists. apply _cast_to_unicode_tuple_free. }
  split; [exact Hfree|]. split.
  - intros Hs. unfold ArrayField_to_python.
    rewrite (_unserialize_not_string r Hs). f_equal. now apply as_lists_fixed.
  - intros kvs xs ->. unfold ArrayField_to_python in Hr.
    rewrite _unserialize_not_string in Hr by reflexivity.
    now injection Hr as <-.
Qed.

Lemma model_to_python_result_settled_witness :
  tuple_free (PList [PDict [(PStr "a", PTuple [PInt 1])]; PList [PInt 2]])
  = true /\
  ArrayField_to_python (lib := Reference.lib)
    (ArrayField_init (declared "int"))
    (PList [PDict [(PStr "a", PTuple [PInt 1])]; PList [PInt 2]])
  = Ok (PList [PDict [(PStr "a", PTuple [PInt 1])]; PList [PInt 2]]).
Proof.
  destruct (model_to_python_result_settled (lib := Reference.lib)
              (ArrayField_init (declared "int"))
              (PList [PDict [(PStr "a", PTuple [PInt 1])]; PTuple [PInt 2]])
              (PList [PDict [(PStr "a", PTuple [PInt 1])]; PList [PInt 2]])
              eq_refl) as (Hfree & Hagain & _).
  split; [exact Hfree | exact (Hagain eq_refl)].
Defined.

Lemma forced_equals_as_lists {lib : PyLib} v :
  _cast_to_unicode v true = as_lists v <-> scalars_all is_string v = true.
Proof.
  induction v as [| | | | |xs IH|xs IH|] using pyval_ind; simpl;
    try (split; discriminate); try (split; reflexivity).
  - rewrite forallb_forall, <- Forall_forall. split.
    + intros [= H]. apply map_eq_Forall in H.
      induction IH as [|a r Ha Hr IHr]; [constructor|].
      inversion H; subst. constructor; [now apply Ha | now apply IHr].
    + intros H. f_equal. apply map_eq_Forall.
      induction IH as [|a r Ha Hr IHr]; [constructor|].
      inversion H; subst. constructor; [now apply Ha | now apply IHr].
  - rewrite forallb_forall, <- Forall_forall. split.
    + intros [= H]. apply map_eq_Forall in H.
      induction IH as [|a r Ha Hr IHr]; [constructor|].
      inversion H; subst. constructor; [now apply Ha | now apply IHr].
    + intros H. f_equal. apply map_eq_Forall.
      induction IH as [|a r Ha Hr IHr]; [constructor|].
      inversion H; subst. constructor; [now apply Ha | now apply IHr].
Qed.

(** X10: for a list or tuple, [to_python] returns what [value_to_string]
    produced unchanged; that is the value itself (tuples as lists) only
    when every element of the value is text, so numbers come back as
    their text. *)
Theorem value_to_string_reads_back {lib : PyLib} :
  forall (self : ArrayField) v,
    is_list_or_tuple v = true ->
    ArrayField_to_python self (value_to_string self v)
    = Ok (value_to_string self v) /\
    (value_to_string self v = as_lists v <-> scalars_all is_string v = true).
Proof.
  intros self v Hv. split; [|apply forced_equals_as_lists].
  unfold value_to_string, get_prep_value, ArrayField_to_python.
  rewrite _unserialize_not_string.
  - f_equal. apply as_lists_fixed, _cast_to_unicode_tuple_free.
  - rewrite (_cast_to_unicode_seq v true Hv). reflexivity.
Qed.

Lemma value_to_string_reads_back_witness :
  ArrayField_to_python (lib := Reference.lib) (ArrayField_init (declared "int"))
    (value_to_string (lib := Reference.lib) (ArrayField_init (declared "int"))
       (PTuple [PInt 1; PStr "b"]))
  = Ok (PList [PStr "1"; PStr "b"]).
Proof.
  apply (proj1 (value_to_string_reads_back (lib := Reference.lib)
                  (ArrayField_init (declared "int"))
                  (PTuple [PInt 1; PStr "b"]) eq_refl)).
Defined.

(** ** Construction and the column type *)

Lemma before_paren_qualified (name rest : string) :
  before_paren (String.append name (String "(" rest)) = before_paren name.
Proof.
  induction name as [|c r IH]; simpl; [reflexivity|].
  destruct (Ascii.eqb c "("); [reflexivity | now rewrite IH].
Qed.

Lemma length_append (a b : string) :
  String.length (String.append a b) = (String.length a + String.length b)%nat.
Proof. induction a as [|c r IH]; simpl; [reflexivity | now rewrite IH]. Qed.

Lemma prefix_append (a b : string) : String.prefix a (String.append a b) = true.
Proof.
  induction a as [|c r IH]; simpl; [now destruct b|].
  destruct (ascii_dec c c) as [_|N]; [exact IH | now destruct N].
Qed.

Lemma length_brackets (n : nat) :
  String.length (String.concat "" (repeat "[]" n)) = (2 * n)%nat.
Proof.
  induction n as [|n IH]; [reflexivity|].
  destruct n as [|m]; [reflexivity|].
  change (repeat "[]" (S (S m))) with ("[]" :: repeat "[]" (S m)).
  change (String.concat "" ("[]" :: repeat "[]" (S m)))
    with (String.append "[]"
            (String.append "" (String.concat "" (repeat "[]" (S m))))).
  rewrite !length_append, IH. simpl. lia.
Qed.

(** X11: a parenthesised qualifier after the type name, as in
    [varchar(50)], takes no part in the choice of the coercion, and the
    field keeps the name as it was written. *)
Theorem qualifier_ignored_for_coercion :
  forall (name rest : string) tc dim,
    let qualified := String.append name (String "(" rest) in
    let kw t := {| kw_dbtype := Some t; kw_type_cast := tc;
                   kw_dimension := dim |} in
    _type_cast (ArrayField_init (kw qualified))
    = _type_cast (ArrayField_init (kw name)) /\
    _array_type (ArrayField_init (kw qualified)) = qualified.
Proof.
  intros name rest tc dim qualified kw. split; [|reflexivity].
  unfold ArrayField_init, kw, qualified; simpl.
  now rewrite before_paren_qualified.
Qed.

(** X12: [db_type] begins with the type name of the field and adds two
    characters for each dimension; with a dimension of zero or less it is
    the bare type name, and a field declared with a type name alone has
    one pair of brackets. *)
Theorem db_type_shape :
  forall (self : ArrayField),
    String.prefix (_array_type self) (db_type self) = true /\
    String.length (db_type self)
    = (String.length (_array_type self) + 2 * Z.to_nat (_dimension self))%nat /\
    (_dimension self <= 0 -> db_type self = _array_type self) /\
    (forall name, db_type (ArrayField_init (declared name))
                  = String.append name "[]").
Proof.
  intros self. unfold db_type. split; [|split; [|split]].
  - apply prefix_append.
  - now rewrite length_append, length_brackets.
  - intros Hd. replace (Z.to_nat (_dimension self)) with 0%nat by lia.
    simpl. induction (_array_type self) as [|c r IH]; simpl;
      [reflexivity | now rewrite IH].
  - intros name. reflexivity.
Qed.

Lemma db_type_shape_witness :
  db_type {| _array_type := "int"; _type_cast := builtin_int;
             _dimension := -1 |} = "int".
Proof.
  apply (proj1 (proj2 (proj2 (db_type_shape
           {| _array_type := "int"; _type_cast := builtin_int;
              _dimension := -1 |})))).
  simpl. lia.
Defined.

(** ** The form field never lets a [ValueError] through *)

(** X13: [ArrayFormField.to_python] raises only on a text, and what it
    raises is never [ValueError]. *)
Theorem form_to_python_raises_on_text_only :
  forall (form : ArrayFormField) v e,
    ArrayFormField_to_python form v = Raise e ->
    is_string v = true /\ e <> ValueError.
Proof.
  intros form v e H. destruct v; try discriminate H. split; [reflexivity|].
  simpl in H. destruct (parse_array s) as [w|[]]; try discriminate H;
    injection H as <-; discriminate.
Qed.

Lemma form_to_python_raises_on_text_only_witness :
  is_string (PStr "{1,2") = true /\
  ValidationError invalid_list_message <> ValueError.
Proof.
  apply (form_to_python_raises_on_text_only
           {| item_field := None |} (PStr "{1,2")).
  reflexivity.
Defined.

(** X14: with the coercion [str] or the identity, [get_db_prep_value]
    raises on no value. *)
Theorem get_db_prep_value_total {lib : PyLib} :
  forall (self : ArrayField) v prepared,
    _type_cast self = builtin_str \/ _type_cast self = lambda_identity ->
    exists w, get_db_prep_value self v prepared = Ok w.
Proof.
  intros self v prepared Htc.
  unfold get_db_prep_value, get_prep_value.
  destruct prepared;
    (destruct (negb (truthy v) || is_string v); [now exists v|]);
    destruct Htc as [-> | ->].
  all: first [ rewrite cast_str_is_unicode | rewrite cast_identity_is_as_lists ];
    eauto.
Qed.

Lemma get_db_prep_value_total_witness :
  exists w,
    get_db_prep_value (lib := Reference.lib)
      (ArrayField_init (declared "text")) (PList [PInt 1; PNone]) false = Ok w.
Proof.
  apply (get_db_prep_value_total (lib := Reference.lib)
           (ArrayField_init (declared "text")) (PList [PInt 1; PNone]) false).
  left. reflexivity.
Defined.

(** X15: [get_db_prep_value] depends on the coercion of the field alone:
    neither the declared dimension, nor the type name, nor the
    [prepared] flag changes what it returns. *)
Theorem get_db_prep_value_by_coercion_alone {lib : PyLib} :
  forall (self self' : ArrayField) v prepared prepared',
    _type_cast self = _type_cast self' ->
    get_db_prep_value self v prepared = get_db_prep_value self' v prepared'.
Proof.
  intros self self' v prepared prepared' H.
  unfold get_db_prep_value, get_prep_value. rewrite H.
  destruct prepared, prepared'; reflexivity.
Qed.

Lemma get_db_prep_value_by_coercion_alone_witness :
  get_db_prep_value (lib := Reference.lib)
    (ArrayField_init {| kw_dbtype := Some "int"; kw_type_cast := None;
                        kw_dimension := Some 1 |})
    (PList [PList [PStr "1"]; PStr "2"]) false
  = get_db_prep_value (lib := Reference.lib)
      (ArrayField_init {| kw_dbtype := Some "bigint"; kw_type_cast := None;
                          kw_dimension := Some 3 |})
      (PList [PList [PStr "1"]; PStr "2"]) true.
Proof.
  apply (get_db_prep_value_by_coercion_alone (lib := Reference.lib)).
  reflexivity.
Defined.

(** ** [SetFormField.to_python] as a function of the set of items *)

Lemma sorted_distinct_ext (A : Type) (inj : A -> pyval) (ltb : A -> A -> bool) :
  (forall a b, py_eq (inj a) (inj b) = true <-> a = b) ->
  (forall a, ltb a a = false) ->
  (forall a b c, ltb a b = true -> ltb b c = true -> ltb a c = true) ->
  (forall a b, a <> b -> ltb a b = true \/ ltb b a = true) ->
  forall l l', (forall a, In a l <-> In a l') ->
    sorted_distinct A inj ltb l = sorted_distinct A inj ltb l'.
Proof.
  intros inj_eq irrefl trans total l l' H.
  destruct (sorted_distinct_spec A inj ltb inj_eq trans total l)
    as (S1 & N1 & I1).
  destruct (sorted_distinct_spec A inj ltb inj_eq trans total l')
    as (S2 & N2 & I2).
  apply (sorted_unique A ltb irrefl trans); [exact S1 | exact S2 |].
  apply NoDup_Permutation; [exact N1 | exact N2 |].
  intros a. rewrite I1, I2. apply H.
Qed.

Lemma sorted_texts_ext l l' :
  (forall a, In a l <-> In a l') -> sorted_texts l = sorted_texts l'.
Proof.
  apply sorted_distinct_ext;
    [exact text_eq | exact text_ltb_irrefl | exact text_ltb_trans
    | exact text_ltb_total].
Qed.

Lemma sorted_ints_ext l l' :
  (forall a, In a l <-> In a l') -> sorted_ints l = sorted_ints l'.
Proof.
  apply sorted_distinct_ext;
    [exact int_eq | exact Z.ltb_irrefl | exact int_ltb_trans
    | exact int_ltb_total].
Qed.

Lemma sorted_texts_In l a : In a (sorted_texts l) <-> In a l.
Proof.
  apply (sorted_distinct_spec string PStr String.ltb text_eq text_ltb_trans
           text_ltb_total l).
Qed.

Lemma sorted_ints_In l a : In a (sorted_ints l) <-> In a l.
Proof.
  apply (sorted_distinct_spec Z PInt Z.ltb int_eq int_ltb_trans
           int_ltb_total l).
Qed.

(** X16: on items that are all texts, or all integers,
    [SetFormField.to_python] depends on which items occur only: two
    values whose parsed items are the same up to order and repetition
    give the same result. *)
Theorem set_form_by_items_alone {lib : PyLib} :
  forall (form : ArrayFormField) v v' parsed parsed',
    v <> PNone -> v' <> PNone ->
    ArrayFormField_to_python form v = Ok parsed ->
    ArrayFormField_to_python form v' = Ok parsed' ->
    (forall l l', py_iter parsed = Ok (map PStr l) ->
                  py_iter parsed' = Ok (map PStr l') ->
                  (forall a, In a l <-> In a l') ->
                  SetFormField_to_python form v
                  = SetFormField_to_python form v') /\
    (forall l l', py_iter parsed = Ok (map PInt l) ->
                  py_iter parsed' = Ok (map PInt l') ->
                  (forall a, In a l <-> In a l') ->
                  SetFormField_to_python form v
                  = SetFormField_to_python form v').
Proof.
  intros form v v' parsed parsed' Hv Hv' Hp Hp'. split; intros l l' Hl Hl' H.
  - rewrite (set_form_texts form v parsed l Hv Hp Hl),
      (set_form_texts form v' parsed' l' Hv' Hp' Hl').
    now rewrite (sorted_texts_ext l l' H).
  - rewrite (set_form_ints form v parsed l Hv Hp Hl),
      (set_form_ints form v' parsed' l' Hv' Hp' Hl').
    now rewrite (sorted_ints_ext l l' H).
Qed.

Lemma set_form_by_items_alone_witness :
  SetFormField_to_python (lib := Reference.lib) {| item_field := None |}
    (PList [PStr "b"; PStr "a"; PStr "b"])
  = SetFormField_to_python (lib := Reference.lib) {| item_field := None |}
      (PTuple [PStr "a"; PStr "b"]).
Proof.
  apply (proj1 (set_form_by_items_alone (lib := Reference.lib)
                  {| item_field := None |}
                  (PList [PStr "b"; PStr "a"; PStr "b"])
                  (PTuple [PStr "a"; PStr "b"])
                  (PList [PStr "b"; PStr "a"; PStr "b"])
                  (PTuple [PStr "a"; PStr "b"])
                  ltac:(discriminate) ltac:(discriminate)
                  eq_refl eq_refl)
           ["b"; "a"; "b"] ["a"; "b"] eq_refl eq_refl).
  intros a; simpl; tauto.
Defined.

(** X17: on items that are all texts, or all integers,
    [SetFormField.to_python] returns a value that it returns unchanged
    when given it again. *)
Theorem set_form_idempotent {lib : PyLib} :
  forall (form : ArrayFormField) v parsed,
    v <> PNone ->
    ArrayFormField_to_python form v = Ok parsed ->
    (exists l, py_iter parsed = Ok (map PStr l)) \/
    (exists l, py_iter parsed = Ok (map PInt l)) ->
    exists r, SetFormField_to_python form v = Ok r /\
              SetFormField_to_python form r = Ok r.
Proof.
  intros form v parsed Hv Hp [[l Hl]|[l Hl]].
  - exists (PList (map PStr (sorted_texts l))). split.
    + exact (set_form_texts form v parsed l Hv Hp Hl).
    + rewrite (set_form_texts form _ (PList (map PStr (sorted_texts l)))
                 (sorted_texts l)); [| discriminate | reflexivity | reflexivity].
      rewrite (sorted_texts_ext (sorted_texts l) l); [reflexivity|].
      intros a. apply sorted_texts_In.
  - exists (PList (map PInt (sorted_ints l))). split.
    + exact (set_form_ints form v parsed l Hv Hp Hl).
    + rewrite (set_form_ints form _ (PList (map PInt (sorted_ints l)))
                 (sorted_ints l)); [| discriminate | reflexivity | reflexivity].
      rewrite (sorted_ints_ext (sorted_ints l) l); [reflexivity|].
      intros a. apply sorted_ints_In.
Qed.

Lemma set_form_idempotent_witness :
  exists r,
    SetFormField_to_python (lib := Reference.lib) {| item_field := None |}
      (PList [PInt 3; PInt 1; PInt 3]) = Ok r /\
    SetFormField_to_python (lib := Reference.lib) {| item_field := None |} r
    = Ok r.
Proof.
  apply (set_form_idempotent (lib := Reference.lib) {| item_field := None |}
           (PList [PInt 3; PInt 1; PInt 3]) (PList [PInt 3; PInt 1; PInt 3])).
  - discriminate.
  - reflexivity.
  - right. exists [3; 1; 3]. reflexivity.
Defined.

(** ** [ArrayField.validate] and [ArrayFormField.clean] *)

(** The first element a comprehension or loop fails on decides the
    exception, and the elements after it are not looked at. *)
Lemma mapM_Raise_iff {A B} (f : A -> result B) xs e :
  mapM f xs = Raise e <->
  exists before x after,
    xs = before ++ x :: after /\ f x = Raise e /\
    Forall (fun x' => exists y, f x' = Ok y) before.
Proof.
  split; [apply mapM_Raise|].
  intros (before & x & after & -> & Hx & Hb).
  induction Hb as [|b r [y Hy] Hr IH]; simpl.
  - now rewrite Hx.
  - rewrite Hy; simpl. fold (mapM f (r ++ x :: after)). now rewrite IH.
Qed.

Section Inherited.

(** [models.Field.validate] of the parent class, for the field and the
    model instance at hand: it returns nothing or raises. *)
Variable Field_validate : pyval -> result unit.

(** [forms.Field.clean] of the parent class. *)
Variable Field_clean : ArrayFormField -> pyval -> result pyval.

(** [ArrayField.validate] *)
Definition ArrayField_validate (self : ArrayField) (value : pyval)
    : result unit :=
  xs <- py_iter value ;;
  _ <- mapM Field_validate xs ;;
  Ok tt.

(** [ArrayFormField.clean] *)
Definition ArrayFormField_clean (self : ArrayFormField) (value : pyval)
    : result pyval :=
  value <- Field_clean self value ;;
  match item_field self with
  | Some f =>
      xs <- py_iter value ;;
      ys <- mapM (item_clean f) xs ;;
      Ok (PList ys)
  | None => Ok value
  end.

(** X18: [ArrayField.validate] passes exactly when the parent's
    [validate] passes on every element of the value, taken as it stands
    (a nested list is one element); otherwise it raises what the first
    failing element raised, or [TypeError] when the value cannot be
    iterated, as for [None]. *)
Theorem validate_elementwise :
  forall (self : ArrayField) value,
    (forall xs, py_iter value = Ok xs ->
       (ArrayField_validate self value = Ok tt <->
        Forall (fun x => Field_validate x = Ok tt) xs) /\
       (forall e, ArrayField_validate self value = Raise e <->
          exists before x after,
            xs = before ++ x :: after /\ Field_validate x = Raise e /\
            Forall (fun x' => Field_validate x' = Ok tt) before)) /\
    (py_iter value = Raise TypeError ->
     ArrayField_validate self value = Raise TypeError) /\
    ArrayField_validate self PNone = Raise TypeError.
Proof.
  intros self value. split; [|split; [|reflexivity]].
  - intros xs Hxs. unfold ArrayField_validate. rewrite Hxs; simpl.
    clear Hxs. split.
    + destruct (mapM Field_validate xs) as [us|e] eqn:Hm; simpl.
      * split; [intros _|reflexivity].
        apply mapM_Ok_iff in Hm.
        induction Hm as [|x u r us Hx Hr IH]; [constructor|].
        constructor; [|exact IH]. now destruct u.
      * split; [discriminate|]. intros Hall.
        apply mapM_Raise in Hm. destruct Hm as (b & x & a & -> & Hx & _).
        apply Forall_app in Hall. destruct Hall as [_ Hall].
        inversion Hall; subst. congruence.
    + intros e. destruct (mapM Field_validate xs) as [us|e'] eqn:Hm; simpl.
      * split; [discriminate|].
        intros (b & x & a & -> & Hx & _).
        apply mapM_Ok_iff in Hm. apply Forall2_app_inv_l in Hm.
        destruct Hm as (l1 & l2 & _ & H2 & _). inversion H2; subst. congruence.
      * split.
        -- intros [= <-]. apply mapM_Raise in Hm.
           destruct Hm as (b & x & a & -> & Hx & Hb).
           exists b, x, a. split; [reflexivity|]. split; [exact Hx|].
           eapply Forall_impl; [|exact Hb]. intros y [[] Hy]. exact Hy.
        -- intros (b & x & a & -> & Hx & Hb). f_equal.
           assert (H : mapM Field_validate (b ++ x :: a) = Raise e).
           { apply mapM_Raise_iff. exists b, x, a.
             split; [reflexivity|]. split; [exact Hx|].
             eapply Forall_impl; [|exact Hb]. intros y Hy. now exists tt. }
           congruence.
  - intros Hi. unfold ArrayField_validate. now rewrite Hi.
Qed.

(** X19: with an item field, once the parent's [clean] has returned a
    value that can be iterated, [ArrayFormField.clean] returns the list
    of the cleaned items, in order, when every item cleans; otherwise it
    raises what the first failing item raised. *)
Theorem clean_itemwise :
  forall (self : ArrayFormField) f value parsed xs,
    item_field self = Some f ->
    Field_clean self value = Ok parsed ->
    py_iter parsed = Ok xs ->
    (forall r, ArrayFormField_clean self value = Ok r <->
       exists ys, r = PList ys /\
                  Forall2 (fun x y => item_clean f x = Ok y) xs ys) /\
    (forall e, ArrayFormField_clean self value = Raise e <->
       exists before x after,
         xs = before ++ x :: after /\ item_clean f x = Raise e /\
         Forall (fun x' => exists y, item_clean f x' = Ok y) before).
Proof.
  intros self f value parsed xs Hf Hp Hxs.
  unfold ArrayFormField_clean. rewrite Hp; simpl. rewrite Hf, Hxs; simpl.
  split.
  - intros r. destruct (mapM (item_clean f) xs) as [ys|e] eqn:Hm; simpl.
    + apply mapM_Ok_iff in Hm. split.
      * intros [= <-]. now exists ys.
      * intros (ys' & -> & H'). apply mapM_Ok_iff in Hm, H'. congruence.
    + split; [discriminate|]. intros (ys' & -> & H').
      apply mapM_Ok_iff in H'. congruence.
  - intros e. rewrite <- mapM_Raise_iff.
    destruct (mapM (item_clean f) xs) as [ys|e']; simpl;
      split; try discriminate; congruence.
Qed.

(** X20: with an item field, [ArrayFormField.clean] raises [TypeError]
    when the parent's [clean] returns [None] or a number, as it does for
    an optional field left empty; without an item field that value is
    returned. *)
Theorem clean_of_scalar :
  forall (self : ArrayFormField) value parsed,
    Field_clean self value = Ok parsed ->
    py_iter parsed = Raise TypeError ->
    (item_field self <> None ->
     ArrayFormField_clean self value = Raise TypeError) /\
    (item_field self = None -> ArrayFormField_clean self value = Ok parsed).
Proof.
  intros self value parsed Hp Hi. unfold ArrayFormField_clean.
  rewrite Hp; simpl. destruct (item_field self) as [f|].
  - split; [intros _ | discriminate]. now rewrite Hi.
  - split; [intros H; now destruct H | reflexivity].
Qed.

End Inherited.

Lemma validate_elementwise_witness :
  ArrayField_validate
    (fun x => match x with PInt _ => Ok tt | _ => Raise (ValidationError "") end)
    (ArrayField_init (declared "int")) (PList [PInt 1; PInt 2]) = Ok tt.
Proof.
  apply (proj1 (proj1 (validate_elementwise
           (fun x => match x with PInt _ => Ok tt
                              | _ => Raise (ValidationError "") end)
           (ArrayField_init (declared "int")) (PList [PInt 1; PInt 2]))
           [PInt 1; PInt 2] eq_refl)).
  repeat constructor.
Defined.

Lemma clean_itemwise_witness :
  exists ys,
    PList [PInt 1; PInt 2] = PList ys /\
    Forall2 (fun x y => py_int x = Ok y) [PStr "1"; PStr "2"] ys.
Proof.
  apply (proj1 (proj1 (clean_itemwise
           (fun form v => ArrayFormField_to_python form v)
           {| item_field := Some {| item_prepare_value := fun v => v;
                                    item_clean := py_int |} |}
           {| item_prepare_value := fun v => v; item_clean := py_int |}
           (PTuple [PStr "1"; PStr "2"]) (PTuple [PStr "1"; PStr "2"])
           [PStr "1"; PStr "2"]
           eq_refl eq_refl eq_refl)
           (PList [PInt 1; PInt 2]))).
  reflexivity.
Defined.

Lemma clean_of_scalar_witness :
  ArrayFormField_clean (fun form v => ArrayFormField_to_python form v)
    {| item_field := Some {| item_prepare_value := fun v => v;
                             item_clean := py_int |} |} PNone
  = Raise TypeError.
Proof.
  apply (proj1 (clean_of_scalar
           (fun form v => ArrayFormField_to_python form v)
           {| item_field := Some {| item_prepare_value := fun v => v;
                                    item_clean := py_int |} |}
           PNone PNone eq_refl eq_refl)).
  discriminate.
Defined.
